(** * Ramer-Douglas-Peucker polyline approximation ([geometry.py])

    A shallow embedding of the module [geometry.py]: the classes [Point] and
    [PolyLine], the functions [deviation] and [normal_intercept], and the
    properties of [PolyLine.approximate].

    Numbers are Python floats, that is IEEE 754 binary64 values: they are
    modelled by Rocq's primitive floats, whose operations are the same
    binary64 operations.  Python raises where IEEE 754 returns a special
    value (division by zero, square root of a negative number); the
    embedding writes those cases out.  Where the module uses a Python int
    (the initial [maxdev = 0], a tolerance given as an int), the embedding
    has the float of the same value, on which the comparisons agree.
    PolyLine objects are mutable and
    shared by reference: they live in a store, and every method is a
    computation over that store that returns a value or raises.  The
    lists of a PolyLine hold references: a Point in a list is an object
    with its identity, and a listener is an object of the caller, of
    which the module only calls [notify]. *)

From Stdlib Require Import ZArith List Bool Lia Floats String.
From stdpp Require Import base list sorting.

Local Open Scope Z_scope.

(** * Exceptions and results *)

(** The exceptions the module can raise.  [RecursionError] is what Python
    raises when the interpreter's recursion limit is reached.
    [Exception name] is an exception of the caller's code, by the name of
    its class: the module raises it when the [notify] of a listener does.
    [NoSuchObject] belongs to the model only: it is the outcome of using a
    reference that names no object of the store, which no Python program
    can do. *)
Inductive exn : Type :=
| IndexError
| ZeroDivisionError
| ValueError
| AttributeError
| RecursionError
| Exception (name : string)
| NoSuchObject.

Inductive result (A : Type) : Type :=
| Ok (a : A)
| Raise (e : exn).
Arguments Ok {A} a.
Arguments Raise {A} e.

(** The exception a computation ended with, when it did. *)
Definition raised {A : Type} (r : result A) : option exn :=
  match r with
  | Ok _ => None
  | Raise e => Some e
  end.

#[global] Instance result_ret : MRet result := fun A a => Ok a.
#[global] Instance result_bind : MBind result := fun A B f r =>
  match r with
  | Ok a => f a
  | Raise e => Raise e
  end.

(** [a == a]: [a] is not a NaN. *)
Definition is_number (a : float) : bool := (a =? a)%float.

(** [a / b] on Python floats. *)
Definition truediv (a b : float) : result float :=
  if (b =? 0)%float then Raise ZeroDivisionError else Ok (a / b)%float.

(** [math.sqrt(a)]. *)
Definition math_sqrt (a : float) : result float :=
  if (a <? 0)%float then Raise ValueError else Ok (sqrt a).

(** [l[i]] on a Python list: a negative index counts from the end. *)
Definition getitem {A : Type} (l : list A) (i : Z) : result A :=
  let j := if i <? 0 then i + Z.of_nat (length l) else i in
  if j <? 0 then Raise IndexError
  else match l !! Z.to_nat j with
       | Some a => Ok a
       | None => Raise IndexError
       end.

(** [range(a, b)]. *)
Definition range (a b : Z) : list Z :=
  map (fun k => a + Z.of_nat k) (seq 0 (Z.to_nat (b - a))).

(** * class Point *)

Module Point.

Record t : Type := Point { x : float; y : float }.

Definition __eq__ (self other : t) : bool :=
  (x self =? x other)%float && (y self =? y other)%float.

End Point.

(** A Python list holds references to objects.  [object] is a Point as a
    list holds it: the identity of the object (what [id] returns, and what
    [is] compares) and its attributes.  The module assigns to no attribute
    of a Point (the class calls them read-only), so that an object keeps
    its attributes and two references with the same identity show the same
    attributes.  [Point(p1, p2)] makes the attributes of a new object; its
    identity is the allocator's choice, and is given by whoever stores the
    object. *)
Record object : Type := Object { ident : nat; point :> Point.t }.

(** [p is q] *)
Definition is_ (p q : object) : bool := (ident p =? ident q)%nat.

(** * Geometric primitives *)

Section Geometry.
Import Point.
Local Open Scope float_scope.

(** The point at which a line through p1 and p2 intersects a normal
    dropped from p. *)
Definition normal_intercept (p1 p2 p : Point.t) : result Point.t :=
  if x p2 =? x p1 then Ok (Point (x p1) (y p))
  else if y p2 =? y p1 then Ok (Point (x p) (y p1))
  else
    seg_slope ← truediv (y p2 - y p1) (x p2 - x p1);
    inv_slope ← truediv 1 seg_slope;
    let normal_slope := 0 - inv_slope in
    let seg_b := y p1 - seg_slope * x p1 in
    let normal_b := y p - normal_slope * x p in
    x_intersect ← truediv (seg_b - normal_b) (normal_slope - seg_slope);
    let y_intersect := seg_slope * x_intersect + seg_b in
    Ok (Point x_intersect y_intersect).

(** Shortest distance from point p to a line through p1,p2. *)
Definition deviation (p1 p2 p : Point.t) : result float :=
  intercept ← normal_intercept p1 p2 p;
  let dx := x intercept - x p in
  let dy := y intercept - y p in
  math_sqrt (dx * dx + dy * dy).

End Geometry.

(** * The store and the computations over it *)

(** A PolyLine is named by a reference; a listener is named by an
    identifier of the view component it stands for. *)
Definition ref : Type := nat.
Definition listener : Type := nat.

(** The payload of an event: a dictionary from names to coordinate pairs. *)
Definition options : Type := list (string * (float * float)).

(** One call [listener.notify(event_name, options=options)]. *)
Record notification : Type := Notification {
  receiver : listener;
  event_name : string;
  payload : options
}.

(** The instance attributes of a PolyLine. *)
Record PolyLineObj : Type := PolyLineObj_of {
  _listeners : list listener;
  _points : list object
}.

(** The world: the PolyLine objects, by reference, and the calls of
    [notify] received so far by the listeners, oldest first. *)
Record World : Type := World_of {
  heap : list PolyLineObj;
  delivered : list notification
}.

Definition M (A : Type) : Type := World -> result A * World.

#[global] Instance M_ret : MRet M := fun A a w => (Ok a, w).
#[global] Instance M_bind : MBind M := fun A B f m w =>
  match m w with
  | (Ok a, w') => f a w'
  | (Raise e, w') => (Raise e, w')
  end.

Definition raise {A : Type} (e : exn) : M A := fun w => (Raise e, w).

(** A pure computation, run in the store. *)
Definition lift {A : Type} (r : result A) : M A := fun w => (r, w).

Definition load (r : ref) : M PolyLineObj := fun w =>
  match heap w !! r with
  | Some o => (Ok o, w)
  | None => (Raise NoSuchObject, w)
  end.

Definition store (r : ref) (o : PolyLineObj) : M unit := fun w =>
  match heap w !! r with
  | Some _ => (Ok tt, World_of (<[r := o]> (heap w)) (delivered w))
  | None => (Raise NoSuchObject, w)
  end.

Definition alloc (o : PolyLineObj) : M ref := fun w =>
  (Ok (length (heap w)), World_of (heap w ++ [o]) (delivered w)).

(** What the [notify] of a listener does is code of the caller.  It is
    given the event name and the options, not the PolyLine; the embedding
    takes from it what the module depends on, whether the call returns or
    raises, which may depend on the calls made before. *)
Definition behaviour : Type := list notification -> notification -> result unit.

(** Listeners that return from every call. *)
Definition recording : behaviour := fun _ _ => Ok tt.

(** [listener.notify(event_name, options=options)]: the call is made, and
    it returns or raises. *)
Definition deliver (notify : behaviour) (n : notification) : M unit := fun w =>
  (notify (delivered w) n, World_of (heap w) (delivered w ++ [n])).

(** [for x in xs: s = body x s]. *)
Fixpoint for_in {A S : Type} (xs : list A) (body : A -> S -> M S) (s : S) : M S :=
  match xs with
  | [] => mret s
  | x :: xs' => s' ← body x s; for_in xs' body s'
  end.

(** * class PolyLine *)

(** What [==] and [__eq__] can return here. *)
Inductive value : Type :=
| VNone
| VBool (b : bool).

Definition truthy (v : value) : bool :=
  match v with
  | VNone => false
  | VBool b => b
  end.

(** The right operand of [PolyLine.__eq__]: a list of points, a PolyLine,
    a Point, or a value of a type that defines no comparison with a list
    ([None], a number, ...). *)
Inductive operand : Type :=
| OList (ps : list object)
| OPolyLine (r : ref)
| OPoint (p : object)
| OOther.

(** [p == q] as a list compares two of its items: an object is equal to
    itself, and [Point.__eq__] decides between two objects. *)
Definition item_eq (p q : object) : bool := is_ p q || Point.__eq__ p q.

(** [l1 == l2] on two lists of points. *)
Fixpoint list_eq (l1 l2 : list object) : bool :=
  match l1, l2 with
  | [], [] => true
  | p :: l1', q :: l2' => item_eq p q && list_eq l1' l2'
  | _, _ => false
  end.

Module PolyLine.

(** [PolyLine()] *)
Definition __init__ : M ref :=
  alloc (PolyLineObj_of [] []).

Definition __len__ (self : ref) : M Z :=
  o ← load self; mret (Z.of_nat (length (_points o))).

Definition __getitem__ (self : ref) (index : Z) : M object :=
  o ← load self; lift (getitem (_points o) index).

Definition append (self : ref) (other : object) : M unit :=
  o ← load self;
  store self (PolyLineObj_of (_listeners o) (_points o ++ [other])).

(** [__eq__] applied to a list: [self._points == other] compares two
    lists. *)
Definition __eq__list (self : ref) (other : list object) : M value :=
  o ← load self;
  if list_eq (_points o) other then mret (VBool true) else mret VNone.

(** [self._points == other]: a list on the left.  Against a list it is
    list equality; against any other value the list declines, and Python
    asks the right operand: a PolyLine answers with its own [__eq__]
    applied to the list, a Point reads the attribute [x] of the list and
    fails, and in the remaining cases the answer is [False]. *)
Definition points_eq (ps : list object) (other : operand) : M value :=
  match other with
  | OList l => mret (VBool (list_eq ps l))
  | OPolyLine q => __eq__list q ps
  | OPoint _ => raise AttributeError
  | OOther => mret (VBool false)
  end.

Definition __eq__ (self : ref) (other : operand) : M value :=
  o ← load self;
  c ← points_eq (_points o) other;
  if truthy c then mret (VBool true) else mret VNone.

(** One iteration of the scan of [_dp_simplify]. *)
Definition scan_step (self : ref) (from_index to_index : Z)
    (i : Z) (acc : float * Z) : M (float * Z) :=
  let '(maxdev, maxindex) := acc in
  o ← load self;
  p1 ← lift (getitem (_points o) from_index);
  p2 ← lift (getitem (_points o) to_index);
  p ← lift (getitem (_points o) i);
  dev ← lift (deviation (point p1) (point p2) (point p));
  if (maxdev <? dev)%float then mret (dev, i) else mret (maxdev, maxindex).

(** Recursively build up simplified path, working left to right to add
    the resulting points to the simplified list.  [depth] is the number
    of nested calls the interpreter still allows. *)
Fixpoint _dp_simplify (depth : nat) (self approx : ref) (tolerance : float)
    (from_index to_index : Z) : M unit :=
  match depth with
  | O => raise RecursionError
  | S depth' =>
    if to_index - from_index <? 2 then
      o ← load self;
      p ← lift (getitem (_points o) from_index);
      append approx p
    else
      '(maxdev, maxindex) ←
        for_in (range (from_index + 1) to_index)
               (scan_step self from_index to_index) (0%float, 0);
      if (maxdev <? tolerance)%float then
        o ← load self;
        p ← lift (getitem (_points o) from_index);
        append approx p
      else
        _dp_simplify depth' self approx tolerance from_index maxindex;;
        _dp_simplify depth' self approx tolerance maxindex to_index
  end.

(** Returns a new PolyLine with a subset of the Points in this polyline,
    deviating from this polyline by no more than tolerance units. *)
Definition approximate (depth : nat) (self : ref) (tolerance : float) : M ref :=
  approx ← __init__;
  o ← load self;
  _dp_simplify depth self approx tolerance 0 (Z.of_nat (length (_points o)) - 1);;
  o ← load self;
  p ← lift (getitem (_points o) (-1));
  append approx p;;
  mret approx.

Definition add_listener (self : ref) (l : listener) : M unit :=
  o ← load self;
  store self (PolyLineObj_of (_listeners o ++ [l]) (_points o)).

Definition notify_all (notify : behaviour) (self : ref) (name : string) (opts : options)
  : M unit :=
  o ← load self;
  for_in (_listeners o) (fun l _ => deliver notify (Notification l name opts)) tt.

End PolyLine.

(** * Scenarios of the specification, run on the embedding *)

Definition pt (a b : float) : Point.t := Point.Point a b.

(** The objects a caller makes with [Point(x, y)], one call for each pair
    of coordinates: each call makes a new object.  The objects get the
    identities [first], [first + 1], ... in the order of the calls. *)
Definition objects (first : nat) (ps : list Point.t) : list object :=
  imap (fun i => Object (first + i)) ps.

(** The items of the list at the given indices: the same objects. *)
Definition picked (ps : list object) (idx : list nat) : list object :=
  omap (fun i => ps !! i) idx.

(** A world with one PolyLine, at reference 0, holding the given points. *)
Definition world_of (ps : list object) : World :=
  World_of [PolyLineObj_of [] ps] [].

(** The points of the PolyLine a computation returns, or its exception. *)
Definition points_of (r : result ref * World) : result (list object) :=
  match r with
  | (Ok a, w) =>
      match heap w !! a with
      | Some o => Ok (_points o)
      | None => Raise NoSuchObject
      end
  | (Raise e, _) => Raise e
  end.

(** [approximate] on a polyline with the given points, alone in the
    store. *)
Definition run_approximate (depth : nat) (ps : list object) (tolerance : float)
  : result (list object) :=
  points_of (PolyLine.approximate depth 0%nat tolerance (world_of ps)).

(** * The simplification as a function of the points

    [_dp_simplify] reads the points of [self] and appends to [approx].
    When the two are different objects, what it appends is a function of
    the points alone; [simplify_pts] is that function.  It returns the
    appended points, each with the index it was read at, and the outcome
    of the call. *)

Fixpoint fold_result {A S : Type} (xs : list A) (body : A -> S -> result S) (s : S)
  : result S :=
  match xs with
  | [] => Ok s
  | x :: xs' => s' ← body x s; fold_result xs' body s'
  end.

Definition scan_pts (pts : list object) (from_index to_index : Z)
    (i : Z) (acc : float * Z) : result (float * Z) :=
  let '(maxdev, maxindex) := acc in
  p1 ← getitem pts from_index;
  p2 ← getitem pts to_index;
  p ← getitem pts i;
  dev ← deviation (point p1) (point p2) (point p);
  if (maxdev <? dev)%float then Ok (dev, i) else Ok (maxdev, maxindex).

Definition scan (pts : list object) (from_index to_index : Z) : result (float * Z) :=
  fold_result (range (from_index + 1) to_index)
              (scan_pts pts from_index to_index) (0%float, 0).

Definition accept (pts : list object) (from_index : Z)
  : list (Z * object) * result unit :=
  match getitem pts from_index with
  | Ok p => ([(from_index, p)], Ok tt)
  | Raise e => ([], Raise e)
  end.

Fixpoint simplify_pts (depth : nat) (pts : list object) (tolerance : float)
    (from_index to_index : Z) : list (Z * object) * result unit :=
  match depth with
  | O => ([], Raise RecursionError)
  | S depth' =>
    if to_index - from_index <? 2 then accept pts from_index
    else
      match scan pts from_index to_index with
      | Raise e => ([], Raise e)
      | Ok (maxdev, maxindex) =>
        if (maxdev <? tolerance)%float then accept pts from_index
        else
          match simplify_pts depth' pts tolerance from_index maxindex with
          | (out1, Ok _) =>
            let '(out2, r) := simplify_pts depth' pts tolerance maxindex to_index in
            (out1 ++ out2, r)
          | (out1, Raise e) => (out1, Raise e)
          end
      end
  end.

(** [approx] after appending [ps]. *)
Definition appended (o : PolyLineObj) (ps : list object) : PolyLineObj :=
  PolyLineObj_of (_listeners o) (_points o ++ ps).

(** ** The polylines and payloads of the scenarios *)

(** Nearly flat; three points on a line; and a polyline whose points
    at 1, 2 and 3 are on a horizontal line, with what [approximate] at
    tolerance 0 makes of it, once and twice. *)
Definition flat4 : list object :=
  objects 0 [pt 0 0; pt 1 0x1.999999999999ap-4; pt 2 (-0x1.999999999999ap-4); pt 3 0].
Definition collinear3 : list object := objects 10 [pt 0 0; pt 1 0; pt 2 0].
Definition bent5 : list object :=
  objects 20 [pt 0 0; pt 0 1; pt (-1) 1; pt 2 1; pt 5 0].
Definition bent5_once : list object :=
  picked bent5 [0; 1; 0; 1; 2; 3; 4]%nat.
Definition bent5_twice : list object :=
  picked bent5 [0; 1; 0; 1; 0; 1; 0; 1; 2; 3; 4]%nat.

(** One point far off the line through the other two. *)
Definition bump3 : list object := objects 30 [pt 0 0; pt 1 5; pt 2 0].

(** Three points with finite coordinates, far apart: the middle one is
    about 1.5e199 away from the line through the other two. *)
Definition far3 : list object :=
  objects 40 [pt 0x1p664 0; pt 0x1.4p664 0x1p1020; pt 0x1.8p664 0x1p1023].

(** The payload of an event for the segment (0,0)-(3,0). *)
Definition segment_0_3 : options :=
  [("p1"%string, (0%float, 0%float)); ("p2"%string, (3%float, 0%float))].

(** [L.approximate(t).approximate(t)]: both results. *)
Definition approximate_twice (depth : nat) (self : ref) (tolerance : float) : M (ref * ref) :=
  once ← PolyLine.approximate depth self tolerance;
  twice ← PolyLine.approximate depth once tolerance;
  mret (once, twice).

(** ** The store after a call *)

(** The world after [approx] has received the points [ps]. *)
Definition extended (w : World) (approx : ref) (o : PolyLineObj) (ps : list object) : World :=
  World_of (<[approx := appended o ps]> (heap w)) (delivered w).

(** The points of the PolyLine that [approximate] builds, and the outcome
    of the call. *)
Definition approximate_pts (depth : nat) (pts : list object) (tolerance : float)
  : list object * result unit :=
  let '(out, r) :=
    simplify_pts depth pts tolerance 0 (Z.of_nat (length pts) - 1) in
  match r with
  | Ok _ =>
    match getitem pts (-1) with
    | Ok p => (map snd out ++ [p], Ok tt)
    | Raise e => (map snd out, Raise e)
    end
  | Raise e => (map snd out, Raise e)
  end.

(** ** Deviation from the result *)

(** The segments of a polyline given by the indices of its vertices. *)
Fixpoint segments (idx : list Z) : list (Z * Z) :=
  match idx with
  | a :: (b :: _) as rest => (a, b) :: segments rest
  | _ => []
  end.

(** The point at index [i] is within [tolerance] of the line through the
    points at [a] and [b], as [deviation] measures it: its deviation is
    not more than the tolerance, and is at most the tolerance when it is a
    number. *)
Definition within (pts : list object) (tolerance : float) (a b i : Z) : bool :=
  match getitem pts a, getitem pts b, getitem pts i with
  | Ok pa, Ok pb, Ok p =>
    match deviation pa pb p with
    | Ok d =>
      negb (tolerance <? d)%float
      && (negb (is_number d) || (d <=? tolerance)%float)
    | Raise _ => false
    end
  | _, _, _ => false
  end.

(** The segment covers the position [i] of the path, and the point at [i]
    is one of its ends or within tolerance of it. *)
Definition covers (pts : list object) (tolerance : float) (seg : Z * Z) (i : Z) : bool :=
  let '(a, b) := seg in
  (a <=? i) && (i <=? b) && ((i =? a) || (i =? b) || within pts tolerance a b i).

(** Some segment between consecutive indices of [idx] covers [i]. *)
Definition covered (pts : list object) (tolerance : float) (idx : list Z) (i : Z) : bool :=
  existsb (fun seg => covers pts tolerance seg i) (segments idx).

(** The deviation bound with [<=] in every case: each position is covered
    by a segment of the result, and the point there is an end of the
    segment or [deviation] returns a value [<=] the tolerance. *)
Definition bounded_by (pts : list object) (tolerance : float) (idx : list Z) : Prop :=
  forall i, 0 <= i < Z.of_nat (length pts) ->
    exists a b, In (a, b) (segments idx) /\ a <= i <= b
      /\ (i = a \/ i = b
          \/ exists pa pb p d,
               getitem pts a = Ok pa /\ getitem pts b = Ok pb /\ getitem pts i = Ok p
               /\ deviation pa pb p = Ok d /\ (d <=? tolerance)%float = true).

(** The abscissa of the point a read returns, when it returns one. *)
Definition abscissa_is (r : result object) (v : float) : bool :=
  match r with
  | Ok p => (Point.x p =? v)%float
  | Raise _ => false
  end.

(** The point of the pair is the one read at the index of the pair. *)
Definition read_at (pts : list object) (ip : Z * object) : Prop :=
  getitem pts (fst ip) = Ok (snd ip).

(** ** The scan, over some of the indices *)

(** The scan over deviations given by a function of the index. *)
Definition first_max (dev : Z -> result float) (xs : list Z) (acc : float * Z)
  : result (float * Z) :=
  fold_result xs
    (fun i '(maxdev, maxindex) =>
       d ← dev i; if (maxdev <? d)%float then Ok (d, i) else Ok (maxdev, maxindex))
    acc.

(** The deviation of the point at [i] from the line through [p1] and [p2]. *)
Definition deviation_at (pts : list object) (p1 p2 : Point.t) (i : Z) : result float :=
  p ← getitem pts i; deviation p1 p2 (point p).

(** [kept devR devL js xs]: the indices [js] read, in order, the same
    deviations as some of the indices [xs]. *)
Inductive kept (devR devL : Z -> result float) : list Z -> list Z -> Prop :=
| kept_nil : kept devR devL [] []
| kept_skip x js xs : kept devR devL js xs -> kept devR devL js (x :: xs)
| kept_keep j x js xs :
    devR j = devL x -> kept devR devL js xs -> kept devR devL (j :: js) (x :: xs).

(** The points [ps] are in [pts] from index [k] on. *)
Definition placed (pts : list object) (k : Z) (ps : list object) : Prop :=
  forall (j : nat) p, ps !! j = Some p -> getitem pts (k + Z.of_nat j) = Ok p.

(** ** Building and indexing a PolyLine *)

(** [for p in ps: self.append(p)] *)
Definition appends (self : ref) (ps : list object) : M unit :=
  for_in ps (fun p _ => PolyLine.append self p) tt.

(** [self] holding the object [o], everything else as in [w]. *)
Definition updated (w : World) (self : ref) (o : PolyLineObj) : World :=
  World_of (<[self := o]> (heap w)) (delivered w).

(** [p = PolyLine(); for q in ps: p.append(q)] *)
Definition polyline_of (ps : list object) : M ref :=
  self ← PolyLine.__init__;
  appends self ps;;
  mret self.

(** The calls [notify(name, options=opts)] made in turn on the listeners
    [ls], after the calls [log], all return. *)
Definition all_return (notify : behaviour) (log : list notification)
    (name : string) (opts : options) (ls : list listener) : Prop :=
  forall (k : nat) l, ls !! k = Some l ->
    notify (log ++ map (fun l' => Notification l' name opts) (take k ls))
           (Notification l name opts) = Ok tt.

(** Listeners of which the one called [9] raises, and the others return. *)
Definition one_raises : behaviour := fun _ n =>
  if (receiver n =? 9)%nat then Raise (Exception "ViewClosed") else Ok tt.

(** [deviation(points[from_index], points[to_index], points[i])] *)
Definition deviation_of (pts : list object) (from_index to_index i : Z) : result float :=
  p1 ← getitem pts from_index;
  p2 ← getitem pts to_index;
  p ← getitem pts i;
  deviation (point p1) (point p2) (point p).

(** * Order facts about binary64 comparison

    Python's [<], [<=] and [==] on floats are the IEEE 754 comparisons:
    every comparison with a NaN is false, and the two zeros are equal. *)

Module FloatOrder.

Definition lex (e1 : Z) (m1 : positive) (e2 : Z) (m2 : positive) : comparison :=
  match Z.compare e1 e2 with
  | Lt => Lt
  | Gt => Gt
  | Eq => Pos.compare_cont Eq m1 m2
  end.

Lemma lex_Lt e1 m1 e2 m2 :
  lex e1 m1 e2 m2 = Lt <-> (e1 < e2 \/ (e1 = e2 /\ (m1 < m2)%positive)).
Proof.
  unfold lex. destruct (Z.compare_spec e1 e2) as [E|E|E].
  - fold (Pos.compare m1 m2). rewrite Pos.compare_lt_iff. intuition lia.
  - intuition lia.
  - split; [discriminate | lia].
Qed.

Lemma lex_Gt e1 m1 e2 m2 :
  lex e1 m1 e2 m2 = Gt <-> (e2 < e1 \/ (e1 = e2 /\ (m2 < m1)%positive)).
Proof.
  unfold lex. destruct (Z.compare_spec e1 e2) as [E|E|E].
  - fold (Pos.compare m1 m2). rewrite Pos.compare_gt_iff. intuition lia.
  - split; [discriminate | lia].
  - intuition lia.
Qed.

Lemma lex_Eq e1 m1 e2 m2 :
  lex e1 m1 e2 m2 = Eq <-> (e1 = e2 /\ m1 = m2).
Proof.
  unfold lex. destruct (Z.compare_spec e1 e2) as [E|E|E].
  - fold (Pos.compare m1 m2). rewrite Pos.compare_eq_iff. intuition lia.
  - split; [discriminate | lia].
  - split; [discriminate | lia].
Qed.

Lemma CompOpp_Lt c : CompOpp c = Lt <-> c = Gt.
Proof. destruct c; simpl; split; congruence. Qed.

Lemma CompOpp_Gt c : CompOpp c = Gt <-> c = Lt.
Proof. destruct c; simpl; split; congruence. Qed.

Lemma CompOpp_Eq c : CompOpp c = Eq <-> c = Eq.
Proof. destruct c; simpl; split; congruence. Qed.

(** [SFcompare] on two finite values, through [lex]. *)
Lemma SFcompare_finite s1 m1 e1 s2 m2 e2 :
  SFcompare (S754_finite s1 m1 e1) (S754_finite s2 m2 e2) =
  Some (match s1, s2 with
        | true, false => Lt
        | false, true => Gt
        | false, false => lex e1 m1 e2 m2
        | true, true => CompOpp (lex e1 m1 e2 m2)
        end).
Proof.
  unfold lex. simpl. destruct s1, s2; try reflexivity.
  destruct (e1 ?= e2); reflexivity.
Qed.

Ltac finite_cases :=
  repeat match goal with
    | H : context [CompOpp _ = Lt] |- _ => rewrite CompOpp_Lt in H
    | H : context [CompOpp _ = Gt] |- _ => rewrite CompOpp_Gt in H
    | H : context [CompOpp _ = Eq] |- _ => rewrite CompOpp_Eq in H
    | H : context [lex _ _ _ _ = Lt] |- _ => rewrite lex_Lt in H
    | H : context [lex _ _ _ _ = Gt] |- _ => rewrite lex_Gt in H
    | H : context [lex _ _ _ _ = Eq] |- _ => rewrite lex_Eq in H
    | |- context [CompOpp _ = Lt] => rewrite CompOpp_Lt
    | |- context [CompOpp _ = Gt] => rewrite CompOpp_Gt
    | |- context [CompOpp _ = Eq] => rewrite CompOpp_Eq
    | |- context [lex _ _ _ _ = Lt] => rewrite lex_Lt
    | |- context [lex _ _ _ _ = Gt] => rewrite lex_Gt
    | |- context [lex _ _ _ _ = Eq] => rewrite lex_Eq
    end.

Ltac by_cases :=
  intros;
  repeat match goal with
    | x : spec_float |- _ => destruct x
    | b : bool |- _ => destruct b
    end;
  rewrite ?SFcompare_finite in *;
  simpl in *; try congruence;
  repeat match goal with
    | H : Some _ = Some _ |- _ => injection H as H
    end;
  try (f_equal); finite_cases; try lia.

Lemma SFcompare_trans_Lt x y z :
  SFcompare x y = Some Lt -> SFcompare y z = Some Lt -> SFcompare x z = Some Lt.
Proof. by_cases. Qed.

Lemma SFcompare_refl x : SFcompare x x = Some Eq \/ SFcompare x x = None.
Proof.
  destruct x as [s|s| |s m e]; try destruct s; simpl; auto;
    left; f_equal; rewrite Z.compare_refl;
    fold (Pos.compare m m); rewrite Pos.compare_refl; reflexivity.
Qed.

Lemma SFcompare_sym_Eq x y : SFcompare x y = Some Eq -> SFcompare y x = Some Eq.
Proof. by_cases. Qed.

Lemma SFcompare_Lt_Gt x y : SFcompare x y = Some Lt <-> SFcompare y x = Some Gt.
Proof. split; by_cases. Qed.

(** Between two ordered values, any value that is not a NaN is on one
    side or the other. *)
Lemma SFcompare_between x y z :
  SFcompare x z = Some Lt -> SFcompare y y = Some Eq ->
  SFcompare x y = Some Lt \/ SFcompare y z = Some Lt.
Proof.
  intros Hxz Hy.
  destruct (SFcompare x y) as [[| |]|] eqn:Exy; auto.
  - right. revert Hxz Hy Exy. by_cases.
  - right. revert Hxz Hy Exy. by_cases.
  - exfalso. revert Hxz Hy Exy. by_cases.
Qed.

End FloatOrder.

(** The same facts on primitive floats, through the specification of the
    primitive comparisons. *)

Module PyFloat.
Import FloatOrder.
Local Open Scope float_scope.

Lemma ltb_Lt a b : (a <? b) = true <-> SFcompare (Prim2SF a) (Prim2SF b) = Some Lt.
Proof.
  rewrite FloatAxioms.ltb_spec. unfold SFltb.
  destruct (SFcompare (Prim2SF a) (Prim2SF b)) as [[| |]|]; split; congruence.
Qed.

Lemma eqb_Eq a b : (a =? b) = true <-> SFcompare (Prim2SF a) (Prim2SF b) = Some Eq.
Proof.
  rewrite FloatAxioms.eqb_spec. unfold SFeqb.
  destruct (SFcompare (Prim2SF a) (Prim2SF b)) as [[| |]|]; split; congruence.
Qed.

Lemma ltb_irrefl a : (a <? a) = false.
Proof.
  destruct (a <? a) eqn:E; [|reflexivity].
  apply ltb_Lt in E. destruct (SFcompare_refl (Prim2SF a)); congruence.
Qed.

Lemma ltb_trans a b c : (a <? b) = true -> (b <? c) = true -> (a <? c) = true.
Proof. rewrite !ltb_Lt. apply SFcompare_trans_Lt. Qed.

Lemma ltb_asym a b : (a <? b) = true -> (b <? a) = false.
Proof.
  intros H. destruct (b <? a) eqn:E; [|reflexivity].
  pose proof (ltb_trans _ _ _ H E) as F. rewrite ltb_irrefl in F. discriminate.
Qed.

Lemma ltb_leb a b : (a <? b) = true -> (a <=? b) = true.
Proof.
  rewrite ltb_Lt, FloatAxioms.leb_spec. unfold SFleb. intros ->. reflexivity.
Qed.

Lemma eqb_sym a b : (a =? b) = (b =? a).
Proof.
  destruct (a =? b) eqn:E1, (b =? a) eqn:E2; try reflexivity.
  - apply eqb_Eq, SFcompare_sym_Eq, eqb_Eq in E1. congruence.
  - apply eqb_Eq, SFcompare_sym_Eq, eqb_Eq in E2. congruence.
Qed.

Lemma ltb_between a b c :
  (a <? c) = true -> is_number b = true -> (a <? b) = true \/ (b <? c) = true.
Proof.
  unfold is_number. rewrite !ltb_Lt, eqb_Eq. apply SFcompare_between.
Qed.

Lemma ltb_is_number_l a b : (a <? b) = true -> is_number a = true.
Proof.
  unfold is_number. rewrite ltb_Lt, eqb_Eq. intros H.
  destruct (SFcompare_refl (Prim2SF a)) as [E|E]; [exact E|].
  destruct (Prim2SF a); simpl in *; congruence.
Qed.

Lemma ltb_is_number_r a b : (a <? b) = true -> is_number b = true.
Proof.
  unfold is_number. rewrite ltb_Lt, eqb_Eq. intros H.
  destruct (SFcompare_refl (Prim2SF b)) as [E|E]; [exact E|].
  destruct (Prim2SF a), (Prim2SF b); simpl in *; congruence.
Qed.

End PyFloat.

(** * The sign of a sum of squares *)

Module FloatSign.

(** Not below zero: a NaN, a zero, or a positive value. *)
Definition not_negative (x : spec_float) : bool :=
  match x with
  | S754_infinity true | S754_finite true _ _ => false
  | _ => true
  end.

Lemma binary_round_aux_sign prec emax m e l :
  not_negative (binary_round_aux prec emax false m e l) = true.
Proof.
  unfold binary_round_aux.
  destruct (shr_fexp prec emax m e l) as [mrs' e'].
  destruct (shr_fexp prec emax _ e' loc_Exact) as [mrs'' e''].
  destruct (shr_m mrs''); [done| |done].
  by destruct (e'' <=? emax - prec).
Qed.

Lemma binary_round_sign prec emax m e :
  not_negative (binary_round prec emax false m e) = true.
Proof.
  unfold binary_round. destruct (shl_align _ _ _) as [mz ez].
  apply binary_round_aux_sign.
Qed.

Lemma SFmul_square prec emax x : not_negative (SFmul prec emax x x) = true.
Proof.
  destruct x as [s|s| |s m e]; [by destruct s|by destruct s|done|].
  destruct s; apply binary_round_aux_sign.
Qed.

Lemma SFadd_sign prec emax x y :
  not_negative x = true -> not_negative y = true ->
  not_negative (SFadd prec emax x y) = true.
Proof.
  destruct x as [sx|sx| |sx mx ex], y as [sy|sy| |sy my ey];
    try (destruct sx); try (destruct sy); try done.
  intros _ _. apply binary_round_sign.
Qed.

Lemma SFsqrt_sign prec emax x : not_negative (SFsqrt prec emax x) = true.
Proof.
  destruct x as [s|s| |s m e]; [by destruct s|by destruct s|done|].
  destruct s; [done|]. unfold SFsqrt.
  destruct (SFsqrt_core_binary prec emax (Z.pos m) e) as [[mz ez] lz].
  apply binary_round_aux_sign.
Qed.

Lemma not_negative_ltb x : not_negative x = true -> SFltb x (S754_zero false) = false.
Proof. destruct x as [s|s| |s m e]; try destruct s; done. Qed.

End FloatSign.

(** * The computations and the function agree *)

Ltac unfold_monad :=
  unfold mbind, mret, M_bind, M_ret, result_bind, result_ret, lift, raise in *.

Lemma appended_nil o : appended o [] = o.
Proof. destruct o. unfold appended. simpl. by rewrite app_nil_r. Qed.

Lemma appended_app o ps qs : appended (appended o ps) qs = appended o (ps ++ qs).
Proof. unfold appended. simpl. by rewrite app_assoc. Qed.

Lemma extended_nil w approx o :
  heap w !! approx = Some o -> extended w approx o [] = w.
Proof.
  intros H. unfold extended. rewrite appended_nil, list_insert_id by done.
  by destruct w.
Qed.

Lemma extended_lookup w approx o ps :
  heap w !! approx = Some o ->
  heap (extended w approx o ps) !! approx = Some (appended o ps).
Proof.
  intros H. simpl. apply list_lookup_insert_eq. by eapply lookup_lt_Some.
Qed.

Lemma extended_lookup_ne w approx o ps r :
  r <> approx -> heap (extended w approx o ps) !! r = heap w !! r.
Proof. intros H. simpl. by apply list_lookup_insert_ne. Qed.

Lemma extended_extended w approx o ps qs :
  extended (extended w approx o ps) approx (appended o ps) qs
  = extended w approx o (ps ++ qs).
Proof.
  unfold extended. simpl. by rewrite list_insert_insert_eq, appended_app.
Qed.

Lemma load_run w r o : heap w !! r = Some o -> load r w = (Ok o, w).
Proof. intros H. unfold load. by rewrite H. Qed.

Lemma append_run w approx o p :
  heap w !! approx = Some o ->
  PolyLine.append approx p w = (Ok tt, extended w approx o [p]).
Proof.
  intros H. unfold PolyLine.append. unfold_monad.
  rewrite (load_run _ _ _ H). unfold store. by rewrite H.
Qed.

Lemma scan_step_run w self S from_index to_index i acc :
  heap w !! self = Some S ->
  PolyLine.scan_step self from_index to_index i acc w
  = (scan_pts (_points S) from_index to_index i acc, w).
Proof.
  intros H. destruct acc as [maxdev maxindex].
  unfold PolyLine.scan_step, scan_pts. unfold_monad.
  rewrite (load_run _ _ _ H).
  destruct (getitem (_points S) from_index) as [p1|e]; [|done].
  destruct (getitem (_points S) to_index) as [p2|e]; [|done].
  destruct (getitem (_points S) i) as [p|e]; [|done].
  destruct (deviation p1 p2 p) as [dev|e]; [|done].
  by destruct (maxdev <? dev)%float.
Qed.

(** The scan reads the store and leaves it as it was. *)
Lemma scan_run w self S from_index to_index xs acc :
  heap w !! self = Some S ->
  for_in xs (PolyLine.scan_step self from_index to_index) acc w
  = (fold_result xs (scan_pts (_points S) from_index to_index) acc, w).
Proof.
  intros H. revert acc. induction xs as [|i xs IH]; intros acc; [done|].
  simpl. unfold mbind, M_bind, result_bind.
  rewrite (scan_step_run _ _ S) by done.
  destruct (scan_pts (_points S) from_index to_index i acc) as [acc'|e]; [apply IH|done].
Qed.

Lemma accept_run w self approx S A from_index :
  self <> approx ->
  heap w !! self = Some S -> heap w !! approx = Some A ->
  (o ← load self; p ← lift (getitem (_points o) from_index); PolyLine.append approx p) w
  = (snd (accept (_points S) from_index),
     extended w approx A (map snd (fst (accept (_points S) from_index)))).
Proof.
  intros Hne HS HA. unfold_monad. rewrite (load_run _ _ _ HS).
  unfold accept. destruct (getitem (_points S) from_index) as [p|e]; simpl.
  - by apply append_run.
  - by rewrite extended_nil.
Qed.

(** [_dp_simplify], run with [approx] another object than [self], returns
    what [simplify_pts] returns and leaves the store as it was but for the
    points appended to [approx]. *)
Lemma dp_simplify_run depth : forall w self approx S A tolerance from_index to_index,
  self <> approx ->
  heap w !! self = Some S -> heap w !! approx = Some A ->
  PolyLine._dp_simplify depth self approx tolerance from_index to_index w
  = (snd (simplify_pts depth (_points S) tolerance from_index to_index),
     extended w approx A
       (map snd (fst (simplify_pts depth (_points S) tolerance from_index to_index)))).
Proof.
  induction depth as [|depth IH]; intros w self approx S A tolerance from_index to_index Hne HS HA.
  - simpl. unfold raise. by rewrite extended_nil.
  - simpl. destruct (to_index - from_index <? 2).
    + by apply accept_run.
    + unfold mbind at 1. unfold M_bind. rewrite (scan_run _ _ S) by done.
      fold (scan (_points S) from_index to_index).
      destruct (scan (_points S) from_index to_index) as [[maxdev maxindex]|e]; simpl.
      * destruct (maxdev <? tolerance)%float.
        { by apply accept_run. }
        unfold mbind, M_bind.
        rewrite (IH w self approx S A) by done.
        destruct (simplify_pts depth (_points S) tolerance from_index maxindex) as [out1 [[]|e]]; simpl.
        -- rewrite (IH _ self approx S (appended A (map snd out1))).
           ++ destruct (simplify_pts depth (_points S) tolerance maxindex to_index) as [out2 r]; simpl.
              by rewrite extended_extended, map_app.
           ++ done.
           ++ by rewrite extended_lookup_ne.
           ++ by apply extended_lookup.
        -- done.
      * by rewrite extended_nil.
Qed.

Lemma extended_fresh w ps :
  extended (World_of (heap w ++ [PolyLineObj_of [] []]) (delivered w))
           (length (heap w)) (PolyLineObj_of [] []) ps
  = World_of (heap w ++ [PolyLineObj_of [] ps]) (delivered w).
Proof.
  unfold extended. simpl. f_equal.
  rewrite insert_app_r_alt by lia. by rewrite Nat.sub_diag.
Qed.

(** [approximate] allocates one PolyLine, after the objects of the store,
    and changes nothing else: not the other objects, and not what the
    listeners have received. *)
Lemma approximate_run depth w self S tolerance :
  heap w !! self = Some S ->
  PolyLine.approximate depth self tolerance w
  = (match snd (approximate_pts depth (_points S) tolerance) with
     | Ok _ => Ok (length (heap w))
     | Raise e => Raise e
     end,
     World_of (heap w ++ [PolyLineObj_of [] (fst (approximate_pts depth (_points S) tolerance))])
              (delivered w)).
Proof.
  intros HS.
  pose proof (lookup_lt_Some _ _ _ HS) as Hlt.
  unfold PolyLine.approximate, PolyLine.__init__, approximate_pts.
  unfold mbind at 1. unfold M_bind. unfold alloc at 1.
  set (w1 := World_of (heap w ++ [PolyLineObj_of [] []]) (delivered w)).
  assert (HS1 : heap w1 !! self = Some S) by (simpl; by rewrite lookup_app_l).
  assert (HA1 : heap w1 !! length (heap w) = Some (PolyLineObj_of [] [])).
  { simpl. rewrite lookup_app_r by lia. by rewrite Nat.sub_diag. }
  assert (Hne : self <> length (heap w)) by lia.
  unfold mbind at 1. unfold M_bind. rewrite (load_run _ _ _ HS1).
  unfold mbind at 1. unfold M_bind.
  rewrite (dp_simplify_run depth w1 self (length (heap w)) S (PolyLineObj_of [] [])) by done.
  destruct (simplify_pts depth (_points S) tolerance 0 (Z.of_nat (length (_points S)) - 1))
    as [out [[]|e]]; simpl; unfold w1; rewrite extended_fresh; [|done].
  set (w2 := World_of _ _).
  assert (HS2 : heap w2 !! self = Some S) by (simpl; by rewrite lookup_app_l).
  assert (HA2 : heap w2 !! length (heap w) = Some (PolyLineObj_of [] (map snd out))).
  { simpl. rewrite lookup_app_r by lia. by rewrite Nat.sub_diag. }
  unfold_monad. rewrite (load_run _ _ _ HS2).
  destruct (getitem (_points S) (-1)) as [p|e]; [|done].
  rewrite (append_run _ _ _ _ HA2). unfold w2, extended. simpl.
  f_equal. f_equal.
  rewrite insert_app_r_alt by lia. by rewrite Nat.sub_diag.
Qed.

(** When [approximate] returns, the recursion has returned and the last
    point was read. *)
Lemma approximate_Ok depth w self S tolerance r w' :
  heap w !! self = Some S ->
  PolyLine.approximate depth self tolerance w = (Ok r, w') ->
  exists out u p,
    simplify_pts depth (_points S) tolerance 0 (Z.of_nat (length (_points S)) - 1)
      = (out, Ok u)
    /\ getitem (_points S) (-1) = Ok p
    /\ heap w' !! r = Some (PolyLineObj_of [] (map snd out ++ [p])).
Proof.
  intros HS. rewrite (approximate_run _ _ _ _ _ HS). unfold approximate_pts.
  destruct (simplify_pts depth (_points S) tolerance 0 (Z.of_nat (length (_points S)) - 1))
    as [out [u|e]]; [|done].
  destruct (getitem (_points S) (-1)) as [p|e]; [|done].
  simpl. intros [= <- <-]. exists out, u, p. repeat split.
  simpl. rewrite lookup_app_r by lia. by rewrite Nat.sub_diag.
Qed.

(** * Lists, indices and ranges *)

Lemma In_range a b i : In i (range a b) <-> a <= i < b.
Proof.
  unfold range. rewrite in_map_iff. split.
  - intros (k & <- & Hk%in_seq). lia.
  - intros H. exists (Z.to_nat (i - a)). split; [lia|]. apply in_seq. lia.
Qed.

Lemma range_nil a b : b <= a -> range a b = [].
Proof. intros H. unfold range. by replace (Z.to_nat (b - a)) with 0%nat by lia. Qed.

Lemma range_cons a b : a < b -> range a b = a :: range (a + 1) b.
Proof.
  intros H. unfold range.
  replace (Z.to_nat (b - a)) with (S (Z.to_nat (b - (a + 1)))) by lia.
  simpl. f_equal; [lia|].
  rewrite <- seq_shift, map_map. apply map_ext. intros k. lia.
Qed.

Lemma range_app a m b : a <= m <= b -> range a b = range a m ++ range m b.
Proof.
  intros H. remember (Z.to_nat (m - a)) as n eqn:Hn. revert a H Hn.
  induction n as [|n IH]; intros a H Hn.
  - assert (a = m) as -> by lia. by rewrite (range_nil m m).
  - rewrite (range_cons a b), (range_cons a m) by lia.
    simpl. f_equal. apply IH; lia.
Qed.

Lemma length_range a b : length (range a b) = Z.to_nat (b - a).
Proof. unfold range. by rewrite length_map, length_seq. Qed.

Lemma getitem_last {A : Type} (l : list A) (a : A) :
  getitem l (-1) = Ok a -> getitem l (Z.of_nat (length l) - 1) = Ok a.
Proof.
  unfold getitem. change (-1 <? 0) with true. cbv iota zeta.
  replace (-1 + Z.of_nat (length l)) with (Z.of_nat (length l) - 1) by lia.
  destruct (Z.of_nat (length l) - 1 <? 0) eqn:E; [done|]. by rewrite E.
Qed.

Lemma getitem_lookup {A : Type} (l : list A) (j : nat) (a : A) :
  l !! j = Some a -> getitem l (Z.of_nat j) = Ok a.
Proof.
  intros H. unfold getitem. cbv zeta.
  replace (Z.of_nat j <? 0) with false by (symmetry; apply Z.ltb_ge; lia).
  cbv iota.
  replace (Z.of_nat j <? 0) with false by (symmetry; apply Z.ltb_ge; lia).
  by rewrite Nat2Z.id, H.
Qed.

Lemma getitem_snoc_last {A : Type} (l : list A) (a : A) : getitem (l ++ [a]) (-1) = Ok a.
Proof.
  unfold getitem. change (-1 <? 0) with true. cbv iota zeta.
  rewrite length_app. simpl length.
  replace (-1 + Z.of_nat (length l + 1) <? 0) with false by (symmetry; apply Z.ltb_ge; lia).
  replace (Z.to_nat (-1 + Z.of_nat (length l + 1))) with (length l) by lia.
  by rewrite list_lookup_middle.
Qed.

Lemma getitem_Raise {A : Type} (l : list A) i e : getitem l i = Raise e -> e = IndexError.
Proof.
  unfold getitem. destruct (_ <? 0); [congruence|].
  destruct (l !! _); congruence.
Qed.

Lemma fold_result_cons {A S : Type} (x : A) xs (body : A -> S -> result S) s :
  fold_result (x :: xs) body s =
  match body x s with
  | Ok s' => fold_result xs body s'
  | Raise e => Raise e
  end.
Proof. reflexivity. Qed.

(** * The recursion, case by case *)

Lemma simplify_pts_S depth pts tolerance from_index to_index :
  simplify_pts (S depth) pts tolerance from_index to_index =
    if to_index - from_index <? 2 then accept pts from_index
    else
      match scan pts from_index to_index with
      | Raise e => ([], Raise e)
      | Ok (maxdev, maxindex) =>
        if (maxdev <? tolerance)%float then accept pts from_index
        else
          match simplify_pts depth pts tolerance from_index maxindex with
          | (out1, Ok _) =>
            let '(out2, r) := simplify_pts depth pts tolerance maxindex to_index in
            (out1 ++ out2, r)
          | (out1, Raise e) => (out1, Raise e)
          end
      end.
Proof. reflexivity. Qed.

Lemma accept_Ok pts from_index out u :
  accept pts from_index = (out, Ok u) ->
  exists p, getitem pts from_index = Ok p /\ out = [(from_index, p)].
Proof.
  unfold accept. destruct (getitem pts from_index) as [p|e]; [|done].
  intros [= <-]. by exists p.
Qed.

Lemma accept_Raise pts from_index out e :
  accept pts from_index = (out, Raise e) -> e = IndexError.
Proof.
  unfold accept. destruct (getitem pts from_index) as [p|e1] eqn:G; [done|].
  intros [= _ <-]. by eapply getitem_Raise.
Qed.

(** A call that returns has appended the point at [from_index] first. *)
Lemma simplify_pts_head depth : forall pts tolerance from_index to_index out u,
  simplify_pts depth pts tolerance from_index to_index = (out, Ok u) ->
  exists p rest, out = (from_index, p) :: rest.
Proof.
  induction depth as [|depth IH]; intros pts tolerance from_index to_index out u; [done|].
  rewrite simplify_pts_S.
  destruct (to_index - from_index <? 2).
  { intros (p & _ & ->)%accept_Ok. by exists p, []. }
  destruct (scan pts from_index to_index) as [[maxdev maxindex]|e]; [|done].
  destruct (maxdev <? tolerance)%float.
  { intros (p & _ & ->)%accept_Ok. by exists p, []. }
  destruct (simplify_pts depth pts tolerance from_index maxindex) as [out1 [u1|e]] eqn:E1; [|done].
  destruct (simplify_pts depth pts tolerance maxindex to_index) as [out2 r].
  intros [= <- ->].
  destruct (IH _ _ _ _ _ _ E1) as (p & rest & ->). by exists p, (rest ++ out2).
Qed.

Lemma simplify_pts_read depth : forall pts tolerance from_index to_index out u,
  simplify_pts depth pts tolerance from_index to_index = (out, Ok u) ->
  Forall (read_at pts) out.
Proof.
  induction depth as [|depth IH]; intros pts tolerance from_index to_index out u; [done|].
  rewrite simplify_pts_S.
  destruct (to_index - from_index <? 2).
  { intros (p & G & ->)%accept_Ok. by repeat constructor. }
  destruct (scan pts from_index to_index) as [[maxdev maxindex]|e]; [|done].
  destruct (maxdev <? tolerance)%float.
  { intros (p & G & ->)%accept_Ok. by repeat constructor. }
  destruct (simplify_pts depth pts tolerance from_index maxindex) as [out1 [u1|e]] eqn:E1; [|done].
  destruct (simplify_pts depth pts tolerance maxindex to_index) as [out2 r] eqn:E2.
  intros [= <- ->]. apply Forall_app. split; by eapply IH.
Qed.

(** * [normal_intercept] and [deviation] *)

(** C8: [normal_intercept] checks its special cases in order.  If
    [p1.x == p2.x] it returns [Point(p1.x, p.y)], and so it does when
    [p1 == p2]; else if [p1.y == p2.y] it returns [Point(p.x, p1.y)]; only
    otherwise is the slope formula used.  For p1=(2,0), p2=(2,10), p=(5,4)
    it returns (2,4), and the deviation is 3.0. *)
Theorem normal_intercept_priority (p1 p2 p : Point.t) :
  ((Point.x p1 =? Point.x p2)%float = true ->
     normal_intercept p1 p2 p = Ok (Point.Point (Point.x p1) (Point.y p)))
  /\ (Point.__eq__ p1 p2 = true ->
     normal_intercept p1 p2 p = Ok (Point.Point (Point.x p1) (Point.y p)))
  /\ ((Point.x p1 =? Point.x p2)%float = false ->
      (Point.y p1 =? Point.y p2)%float = true ->
     normal_intercept p1 p2 p = Ok (Point.Point (Point.x p) (Point.y p1)))
  /\ ((Point.x p1 =? Point.x p2)%float = false ->
      (Point.y p1 =? Point.y p2)%float = false ->
     normal_intercept p1 p2 p =
       (seg_slope ← truediv (Point.y p2 - Point.y p1) (Point.x p2 - Point.x p1);
        inv_slope ← truediv 1 seg_slope;
        let normal_slope := (0 - inv_slope)%float in
        let seg_b := (Point.y p1 - seg_slope * Point.x p1)%float in
        let normal_b := (Point.y p - normal_slope * Point.x p)%float in
        x_intersect ← truediv (seg_b - normal_b) (normal_slope - seg_slope);
        Ok (Point.Point x_intersect (seg_slope * x_intersect + seg_b)%float)))
  /\ normal_intercept (pt 2 0) (pt 2 10) (pt 5 4) = Ok (pt 2 4)
  /\ deviation (pt 2 0) (pt 2 10) (pt 5 4) = Ok 3%float.
Proof.
  unfold normal_intercept, Point.__eq__.
  rewrite (PyFloat.eqb_sym (Point.x p2) (Point.x p1)).
  rewrite (PyFloat.eqb_sym (Point.y p2) (Point.y p1)).
  repeat split.
  - by intros ->.
  - intros [-> _]%andb_true_iff. done.
  - by intros -> ->.
  - by intros -> ->.
Qed.

Lemma normal_intercept_priority_witness :
  normal_intercept (pt 2 0) (pt 2 10) (pt 5 4) = Ok (pt 2 4).
Proof.
  apply (proj1 (normal_intercept_priority (pt 2 0) (pt 2 10) (pt 5 4))).
  reflexivity.
Defined.

Lemma truediv_Raise a b e : truediv a b = Raise e -> e = ZeroDivisionError.
Proof. unfold truediv. destruct (b =? 0)%float; congruence. Qed.

Lemma normal_intercept_Raise p1 p2 p e :
  normal_intercept p1 p2 p = Raise e -> e = ZeroDivisionError.
Proof.
  unfold normal_intercept, mbind, result_bind.
  destruct (_ =? _)%float; [done|]. destruct (_ =? _)%float; [done|].
  destruct (truediv _ _) as [seg_slope|e1] eqn:T1; [|intros [= <-]; by eapply truediv_Raise].
  destruct (truediv 1 _) as [inv_slope|e2] eqn:T2; [|intros [= <-]; by eapply truediv_Raise].
  cbv zeta.
  match goal with |- context [truediv ?a ?b] =>
    destruct (truediv a b) as [x_intersect|e3] eqn:T3
  end; [done|intros [= <-]; by eapply truediv_Raise].
Qed.

Lemma deviation_Raise p1 p2 p e :
  deviation p1 p2 p = Raise e -> e = ZeroDivisionError \/ e = ValueError.
Proof.
  unfold deviation, mbind, result_bind.
  destruct (normal_intercept p1 p2 p) as [q|e1] eqn:N.
  - unfold math_sqrt. destruct (_ <? 0)%float; [|done]. intros [= <-]. by right.
  - intros [= <-]. left. by eapply normal_intercept_Raise.
Qed.

(** * [PolyLine.__eq__] *)

Lemma is_refl p : is_ p p = true.
Proof. unfold is_. by rewrite Nat.eqb_refl. Qed.

Lemma is_sym p q : is_ p q = is_ q p.
Proof. unfold is_. apply Nat.eqb_sym. Qed.

Lemma item_eq_sym p q : item_eq p q = item_eq q p.
Proof.
  unfold item_eq, Point.__eq__.
  by rewrite (is_sym p q), (PyFloat.eqb_sym (Point.x p)), (PyFloat.eqb_sym (Point.y p)).
Qed.

Lemma item_eq_true p q :
  item_eq p q = true <-> ident p = ident q \/ Point.__eq__ p q = true.
Proof. unfold item_eq, is_. by rewrite orb_true_iff, Nat.eqb_eq. Qed.

Lemma list_eq_refl l : list_eq l l = true.
Proof.
  induction l as [|p l IH]; [done|]. simpl. unfold item_eq. by rewrite is_refl, IH.
Qed.

Lemma list_eq_sym l1 : forall l2, list_eq l1 l2 = list_eq l2 l1.
Proof.
  induction l1 as [|p l1 IH]; intros [|q l2]; simpl; try done.
  by rewrite item_eq_sym, IH.
Qed.

Lemma list_eq_length l1 : forall l2, list_eq l1 l2 = true -> length l1 = length l2.
Proof.
  induction l1 as [|p l1 IH]; intros [|q l2]; simpl; try done.
  intros [_ H]%andb_true_iff. f_equal. by apply IH.
Qed.

(** Two lists are equal when they have the same length and, position by
    position, hold the same object or two Points that [Point.__eq__]
    finds equal. *)
Lemma list_eq_true l1 : forall l2,
  list_eq l1 l2 = true
  <-> Forall2 (fun p q => ident p = ident q \/ Point.__eq__ p q = true) l1 l2.
Proof.
  induction l1 as [|p l1 IH]; intros [|q l2]; simpl.
  - split; [constructor|done].
  - split; [done|]. intros H. inversion H.
  - split; [done|]. intros H. inversion H.
  - rewrite andb_true_iff, item_eq_true, IH. split.
    + intros [H1 H2]. by constructor.
    + intros H. inversion H; subst. done.
Qed.

(** C10: [PolyLine.__eq__] compares the points of this polyline with the
    other operand.  It returns [True] when the comparison succeeds and
    [None] when it does not; it never returns [False].  Against a list
    or a PolyLine the comparison succeeds when the two sequences have the
    same length and hold, position by position, the same object or two
    Points with equal coordinates; so it does against the polyline's own
    points, whatever they are. *)
Theorem polyline_eq_true_or_none (w : World) (self : ref) (S : PolyLineObj) (other : operand) :
  heap w !! self = Some S ->
  fst (PolyLine.__eq__ self other w) <> Ok (VBool false)
  /\ (forall l, other = OList l ->
        fst (PolyLine.__eq__ self other w)
        = Ok (if list_eq (_points S) l then VBool true else VNone))
  /\ (forall q Q, other = OPolyLine q -> heap w !! q = Some Q ->
        fst (PolyLine.__eq__ self other w)
        = Ok (if list_eq (_points Q) (_points S) then VBool true else VNone))
  /\ (other = OOther -> fst (PolyLine.__eq__ self other w) = Ok VNone)
  /\ (forall l1 l2,
        list_eq l1 l2 = true
        <-> Forall2 (fun p q => ident p = ident q \/ Point.__eq__ p q = true) l1 l2)
  /\ (other = OList (_points S) \/ other = OPolyLine self ->
        fst (PolyLine.__eq__ self other w) = Ok (VBool true)).
Proof.
  intros HS. unfold PolyLine.__eq__. unfold_monad. rewrite (load_run _ _ _ HS).
  split; [|split; [|split; [|split; [|split]]]].
  - destruct other as [l|q|p|]; simpl; unfold_monad.
    + by destruct (list_eq (_points S) l).
    + unfold PolyLine.__eq__list. unfold_monad. unfold load.
      destruct (heap w !! q) as [Q|]; [|done].
      by destruct (list_eq (_points Q) (_points S)).
    + done.
    + done.
  - intros l ->. simpl. unfold_monad. by destruct (list_eq (_points S) l).
  - intros q Q -> HQ. simpl. unfold PolyLine.__eq__list. unfold_monad.
    rewrite (load_run _ _ _ HQ). by destruct (list_eq (_points Q) (_points S)).
  - by intros ->.
  - intros l1 l2. apply list_eq_true.
  - intros [-> | ->]; simpl; unfold_monad.
    + by rewrite list_eq_refl.
    + unfold PolyLine.__eq__list. unfold_monad.
      rewrite (load_run _ _ _ HS). by rewrite list_eq_refl.
Qed.

(** A Point with the coordinates of the polyline's point matches it, a
    Point with other coordinates does not; with a NaN coordinate the
    object itself matches, and another Point with the same coordinates
    does not. *)
Lemma polyline_eq_true_or_none_witness :
  fst (PolyLine.__eq__ 0%nat (OList [Object 5 (pt 1 1)]) (world_of (objects 0 [pt 1 1])))
  = Ok (VBool true)
  /\ fst (PolyLine.__eq__ 0%nat (OList [Object 5 (pt 1 2)]) (world_of (objects 0 [pt 1 1])))
     = Ok VNone
  /\ fst (PolyLine.__eq__ 0%nat (OList [Object 0 (pt nan 1)])
            (world_of (objects 0 [pt nan 1])))
     = Ok (VBool true)
  /\ fst (PolyLine.__eq__ 0%nat (OList [Object 5 (pt nan 1)])
            (world_of (objects 0 [pt nan 1])))
     = Ok VNone.
Proof.
  split; [|split; [|split]].
  - exact (proj1 (proj2 (polyline_eq_true_or_none
             (world_of (objects 0 [pt 1 1])) 0%nat (PolyLineObj_of [] (objects 0 [pt 1 1]))
             (OList [Object 5 (pt 1 1)]) eq_refl)) [Object 5 (pt 1 1)] eq_refl).
  - exact (proj1 (proj2 (polyline_eq_true_or_none
             (world_of (objects 0 [pt 1 1])) 0%nat (PolyLineObj_of [] (objects 0 [pt 1 1]))
             (OList [Object 5 (pt 1 2)]) eq_refl)) [Object 5 (pt 1 2)] eq_refl).
  - exact (proj1 (proj2 (polyline_eq_true_or_none
             (world_of (objects 0 [pt nan 1])) 0%nat (PolyLineObj_of [] (objects 0 [pt nan 1]))
             (OList [Object 0 (pt nan 1)]) eq_refl)) [Object 0 (pt nan 1)] eq_refl).
  - exact (proj1 (proj2 (polyline_eq_true_or_none
             (world_of (objects 0 [pt nan 1])) 0%nat (PolyLineObj_of [] (objects 0 [pt nan 1]))
             (OList [Object 5 (pt nan 1)]) eq_refl)) [Object 5 (pt nan 1)] eq_refl).
Defined.

(** * What [approximate] touches *)

(** C9: [approximate] leaves its PolyLine unchanged, points and
    listeners, whatever the tolerance and whether it returns or raises;
    so it leaves every PolyLine that existed before the call.  What it
    returns is a new PolyLine: a reference that named nothing before. *)
Theorem approximate_leaves_self_unchanged (depth : nat) (w : World) (self : ref)
    (S : PolyLineObj) (tolerance : float) (res : result ref) (w' : World) :
  heap w !! self = Some S ->
  PolyLine.approximate depth self tolerance w = (res, w') ->
  heap w' !! self = Some S
  /\ (forall r o, heap w !! r = Some o -> heap w' !! r = Some o)
  /\ (forall r, res = Ok r -> r <> self /\ heap w !! r = None /\ is_Some (heap w' !! r)).
Proof.
  intros HS. rewrite (approximate_run _ _ _ _ _ HS). intros [= <- <-]. simpl.
  assert (Hkeep : forall r o, heap w !! r = Some o ->
            (heap w ++ [PolyLineObj_of [] (fst (approximate_pts depth (_points S) tolerance))]) !! r
            = Some o).
  { intros r o Hr. rewrite lookup_app_l; [done|]. by eapply lookup_lt_Some. }
  split; [by apply Hkeep|]. split; [exact Hkeep|].
  intros r Hr.
  destruct (snd (approximate_pts depth (_points S) tolerance)); [|done].
  injection Hr as <-.
  pose proof (lookup_lt_Some _ _ _ HS).
  split; [lia|]. split.
  - apply lookup_ge_None. lia.
  - rewrite lookup_app_r by lia. rewrite Nat.sub_diag. by eexists.
Qed.

Lemma approximate_leaves_self_unchanged_witness :
  heap (snd (PolyLine.approximate 1000 0%nat 1%float (world_of flat4))) !! 0%nat
  = Some (PolyLineObj_of [] flat4).
Proof.
  exact (proj1 (approximate_leaves_self_unchanged 1000 (world_of flat4) 0%nat
                  (PolyLineObj_of [] flat4) 1%float _ _ eq_refl
                  (surjective_pairing _))).
Defined.

(** C4, on the scenario of the claim: [approximate] never calls
    [notify_all].  Whatever the polyline and the tolerance, the listeners
    receive nothing during the call; in the scenario, with one listener
    registered, the result is [(0,0), (3,0)] and no event is delivered,
    where the claim expects one [final_approx_seg] event.  [notify_all]
    itself does call the registered listener, whatever that one does. *)
Theorem approximate_delivers_nothing :
  (forall depth w self S tolerance,
     heap w !! self = Some S ->
     delivered (snd (PolyLine.approximate depth self tolerance w)) = delivered w)
  /\ (let w := snd (PolyLine.add_listener 0%nat 7%nat (world_of flat4)) in
      heap w !! 0%nat = Some (PolyLineObj_of [7%nat] flat4)
      /\ points_of (PolyLine.approximate 1000 0%nat 1%float w)
         = Ok [Object 0 (pt 0 0); Object 3 (pt 3 0)]
      /\ delivered (snd (PolyLine.approximate 1000 0%nat 1%float w)) = []
      /\ forall notify,
           delivered (snd (PolyLine.notify_all notify 0%nat "final_approx_seg"
                             segment_0_3 w))
           = [Notification 7%nat "final_approx_seg" segment_0_3]).
Proof.
  split.
  - intros depth w self S tolerance HS. by rewrite (approximate_run _ _ _ _ _ HS).
  - split; [reflexivity|]. split; [by vm_compute|]. split; [by vm_compute|].
    intros notify. vm_compute.
    match goal with |- context [notify ?log ?n] => by destruct (notify log n) end.
Qed.

(** C5, amended: [approximate] on an empty PolyLine returns no result.
    It makes no check of its own: it creates the result, calls
    [_dp_simplify], and the first read of [self._points[0]] there raises
    the [IndexError] of the list, the one that [self[0]] raises (with no
    call depth left at all, the call itself raises [RecursionError]).
    The polyline and the other objects are as they were. *)
Theorem approximate_empty_raises (depth : nat) (w : World) (self : ref)
    (S : PolyLineObj) (tolerance : float) :
  heap w !! self = Some S -> _points S = [] ->
  fst (PolyLine.approximate depth self tolerance w)
  = Raise (match depth with O => RecursionError | _ => IndexError end)
  /\ (depth <> 0%nat ->
      raised (fst (PolyLine.approximate depth self tolerance w))
      = raised (fst (PolyLine.__getitem__ self 0 w)))
  /\ heap (snd (PolyLine.approximate depth self tolerance w))
     = heap w ++ [PolyLineObj_of [] []].
Proof.
  intros HS Hemp. rewrite (approximate_run _ _ _ _ _ HS). cbn [fst snd heap].
  unfold PolyLine.__getitem__, mbind, M_bind. rewrite (load_run _ _ _ HS).
  unfold approximate_pts. rewrite Hemp.
  split; [by destruct depth|]. split; by destruct depth.
Qed.

Lemma approximate_empty_raises_witness :
  fst (PolyLine.approximate 1000 0%nat 1%float (world_of [])) = Raise IndexError
  /\ (1000%nat <> 0%nat ->
      raised (fst (PolyLine.approximate 1000 0%nat 1%float (world_of [])))
      = raised (fst (PolyLine.__getitem__ 0%nat 0 (world_of []))))
  /\ heap (snd (PolyLine.approximate 1000 0%nat 1%float (world_of [])))
     = heap (world_of []) ++ [PolyLineObj_of [] []].
Proof.
  exact (approximate_empty_raises 1000 (world_of []) 0%nat (PolyLineObj_of [] []) 1%float
           eq_refl eq_refl).
Defined.

(** C5, as the claim states it, on the empty polyline.  The exception is
    not one that names the violated precondition: it is the [IndexError]
    of a list read, the very exception that [self[0]] raises on the empty
    polyline and that [self[3]] raises on a polyline of three points.
    Nor is it raised before any work is done: the PolyLine that was to be
    the result is in the store by then. *)
Lemma approximate_empty_error_is_of_the_list :
  fst (PolyLine.approximate 1000 0%nat 1%float (world_of [])) = Raise IndexError
  /\ fst (PolyLine.__getitem__ 0%nat 0 (world_of [])) = Raise IndexError
  /\ fst (PolyLine.__getitem__ 0%nat 3 (world_of bump3)) = Raise IndexError
  /\ getitem ([] : list object) 0 = Raise IndexError
  /\ heap (snd (PolyLine.approximate 1000 0%nat 1%float (world_of [])))
     = [PolyLineObj_of [] []; PolyLineObj_of [] []].
Proof. repeat split. Qed.

(** * The scan of a range *)

Lemma scan_pts_Ok pts from_index to_index i maxdev0 maxindex0 acc :
  scan_pts pts from_index to_index i (maxdev0, maxindex0) = Ok acc ->
  exists p1 p2 p d,
    getitem pts from_index = Ok p1 /\ getitem pts to_index = Ok p2
    /\ getitem pts i = Ok p /\ deviation p1 p2 p = Ok d
    /\ acc = if (maxdev0 <? d)%float then (d, i) else (maxdev0, maxindex0).
Proof.
  unfold scan_pts, mbind, result_bind.
  destruct (getitem pts from_index) as [p1|e]; [|done].
  destruct (getitem pts to_index) as [p2|e]; [|done].
  destruct (getitem pts i) as [p|e]; [|done].
  destruct (deviation p1 p2 p) as [d|e] eqn:D; [|done].
  intros H. exists p1, p2, p, d. repeat split; [done|].
  destruct (maxdev0 <? d)%float; congruence.
Qed.

(** The scan keeps the first strict maximum: nothing it has seen is above
    the deviation it returns. *)
Lemma fold_scan pts from_index to_index xs : forall maxdev0 maxindex0 maxdev maxindex,
  fold_result xs (scan_pts pts from_index to_index) (maxdev0, maxindex0)
    = Ok (maxdev, maxindex) ->
  ((maxdev, maxindex) = (maxdev0, maxindex0)
   \/ (In maxindex xs /\ (maxdev0 <? maxdev)%float = true))
  /\ (forall d, (maxdev0 <? d)%float = false -> (maxdev <? d)%float = false)
  /\ (forall i, In i xs -> exists p1 p2 p d,
        getitem pts from_index = Ok p1 /\ getitem pts to_index = Ok p2
        /\ getitem pts i = Ok p /\ deviation p1 p2 p = Ok d
        /\ (maxdev <? d)%float = false).
Proof.
  induction xs as [|x xs IH]; intros maxdev0 maxindex0 maxdev maxindex.
  { simpl. intros [= <- <-]. repeat split; [by left|done|done]. }
  rewrite fold_result_cons.
  destruct (scan_pts pts from_index to_index x (maxdev0, maxindex0)) as [acc|e] eqn:Hstep;
    [|done].
  apply scan_pts_Ok in Hstep as (p1 & p2 & p & dev & G1 & G2 & G & D & ->).
  destruct (maxdev0 <? dev)%float eqn:C; intros H;
    destruct (IH _ _ _ _ H) as (Hfirst & Hmono & Hseen).
  - assert (Hmono0 : forall d, (maxdev0 <? d)%float = false -> (dev <? d)%float = false).
    { intros d Hd. destruct (dev <? d)%float eqn:E; [|done].
      by rewrite (PyFloat.ltb_trans _ _ _ C E) in Hd. }
    repeat split.
    + right. destruct Hfirst as [[= -> ->]|[Hin Hlt]].
      * split; [by left|done].
      * split; [by right|]. by eapply PyFloat.ltb_trans.
    + intros d Hd. by apply Hmono, Hmono0.
    + intros i [<-|Hin]; [|by apply Hseen].
      exists p1, p2, p, dev. repeat split; try done.
      apply Hmono, PyFloat.ltb_irrefl.
  - repeat split.
    + destruct Hfirst as [->|[Hin Hlt]]; [by left|right]. split; [by right|done].
    + done.
    + intros i [<-|Hin]; [|by apply Hseen].
      exists p1, p2, p, dev. repeat split; try done. by apply Hmono.
Qed.

Lemma scan_Ok pts from_index to_index maxdev maxindex :
  scan pts from_index to_index = Ok (maxdev, maxindex) ->
  ((maxdev, maxindex) = (0%float, 0)
   \/ (from_index < maxindex < to_index /\ (0 <? maxdev)%float = true))
  /\ (forall i, from_index < i < to_index -> exists p1 p2 p d,
        getitem pts from_index = Ok p1 /\ getitem pts to_index = Ok p2
        /\ getitem pts i = Ok p /\ deviation p1 p2 p = Ok d
        /\ (maxdev <? d)%float = false).
Proof.
  unfold scan. intros (Hfirst & _ & Hseen)%fold_scan. split.
  - destruct Hfirst as [->|[Hin%In_range Hlt]]; [by left|right]. split; [lia|done].
  - intros i Hi. apply Hseen, In_range. lia.
Qed.

(** When the scan result is below the tolerance, every interior point is
    within tolerance of the line through the two ends. *)
Lemma scan_within pts tolerance from_index to_index maxdev maxindex i :
  scan pts from_index to_index = Ok (maxdev, maxindex) ->
  (maxdev <? tolerance)%float = true ->
  from_index < i < to_index ->
  within pts tolerance from_index to_index i = true.
Proof.
  intros [_ Hseen]%scan_Ok Hlt Hi.
  destruct (Hseen i Hi) as (p1 & p2 & p & d & G1 & G2 & G & D & Hd).
  unfold within. rewrite G1, G2, G, D.
  apply andb_true_iff. split.
  - apply negb_true_iff. destruct (tolerance <? d)%float eqn:E; [|done].
    by rewrite (PyFloat.ltb_trans _ _ _ Hlt E) in Hd.
  - destruct (is_number d) eqn:N; [simpl|done].
    destruct (PyFloat.ltb_between _ d _ Hlt N) as [F|F]; [congruence|].
    by apply PyFloat.ltb_leb.
Qed.

Lemma fold_scan_Raise pts from_index to_index xs : forall acc e,
  fold_result xs (scan_pts pts from_index to_index) acc = Raise e ->
  e <> RecursionError.
Proof.
  induction xs as [|x xs IH]; intros [maxdev0 maxindex0] e; [done|].
  rewrite fold_result_cons.
  destruct (scan_pts pts from_index to_index x (maxdev0, maxindex0)) as [acc|e1] eqn:Hstep.
  { apply IH. }
  intros [= <-]. revert Hstep. unfold scan_pts, mbind, result_bind.
  destruct (getitem pts from_index) as [p1|e2] eqn:G1;
    [|intros [= <-]; apply getitem_Raise in G1; congruence].
  destruct (getitem pts to_index) as [p2|e2] eqn:G2;
    [|intros [= <-]; apply getitem_Raise in G2; congruence].
  destruct (getitem pts x) as [p|e2] eqn:G;
    [|intros [= <-]; apply getitem_Raise in G; congruence].
  destruct (deviation p1 p2 p) as [d|e2] eqn:D;
    [|intros [= <-]; apply deviation_Raise in D as [->| ->]; congruence].
  by destruct (maxdev0 <? d)%float.
Qed.

(** * The deviation bound *)

Lemma segments_app_l idx1 idx2 seg :
  In seg (segments idx1) -> In seg (segments (idx1 ++ idx2)).
Proof.
  induction idx1 as [|a [|b idx1] IH]; simpl; [done|done|].
  intros [<-|H]; [by left|right]. by apply IH.
Qed.

Lemma segments_app_r idx1 idx2 seg :
  In seg (segments idx2) -> In seg (segments (idx1 ++ idx2)).
Proof.
  intros H. induction idx1 as [|a idx1 IH]; [done|].
  simpl. destruct (idx1 ++ idx2) eqn:E; [by destruct idx1, idx2|]. by right.
Qed.

Lemma covered_app_l pts tolerance idx1 idx2 i :
  covered pts tolerance idx1 i = true -> covered pts tolerance (idx1 ++ idx2) i = true.
Proof.
  unfold covered. rewrite !existsb_exists. intros (seg & Hin & Hc).
  exists seg. split; [by apply segments_app_l|done].
Qed.

Lemma covered_app_r pts tolerance idx1 idx2 i :
  covered pts tolerance idx2 i = true -> covered pts tolerance (idx1 ++ idx2) i = true.
Proof.
  unfold covered. rewrite !existsb_exists. intros (seg & Hin & Hc).
  exists seg. split; [by apply segments_app_r|done].
Qed.

Lemma covered_end_l pts tolerance a b : a <= b -> covered pts tolerance [a; b] a = true.
Proof.
  intros H. unfold covered. simpl. rewrite Z.eqb_refl. simpl.
  rewrite orb_false_r, andb_true_r. apply andb_true_iff. split; lia.
Qed.

Lemma covered_end_r pts tolerance a b : a <= b -> covered pts tolerance [a; b] b = true.
Proof.
  intros H. unfold covered. simpl. rewrite Z.eqb_refl. simpl.
  rewrite orb_false_r, orb_true_r, andb_true_r. apply andb_true_iff. split; lia.
Qed.

Lemma covered_inside pts tolerance a b i :
  a <= i <= b -> within pts tolerance a b i = true -> covered pts tolerance [a; b] i = true.
Proof.
  intros H Hw. unfold covered. simpl. rewrite Hw. simpl.
  rewrite orb_false_r, orb_true_r, andb_true_r. apply andb_true_iff. split; lia.
Qed.

(** What a call of [_dp_simplify] appends, followed by the end of its
    range, covers every position of the range. *)
Lemma simplify_pts_covers depth : forall pts tolerance from_index to_index out u,
  0 <= from_index ->
  simplify_pts depth pts tolerance from_index to_index = (out, Ok u) ->
  Forall (read_at pts) out
  /\ (from_index <= to_index -> forall i, from_index <= i <= to_index ->
      covered pts tolerance (map fst out ++ [to_index]) i = true).
Proof.
  induction depth as [|depth IH]; intros pts tolerance from_index to_index out u Hfrom; [done|].
  rewrite simplify_pts_S.
  destruct (to_index - from_index <? 2) eqn:Hbase.
  { intros (p & G & ->)%accept_Ok. split; [by repeat constructor|].
    intros Hle i Hi. simpl. apply Z.ltb_lt in Hbase.
    destruct (Z.eq_dec i from_index) as [->|Hne]; [by apply covered_end_l|].
    assert (i = to_index) as -> by lia. by apply covered_end_r. }
  apply Z.ltb_ge in Hbase.
  destruct (scan pts from_index to_index) as [[maxdev maxindex]|e] eqn:Hscan; [|done].
  destruct (maxdev <? tolerance)%float eqn:Hflat.
  { intros (p & G & ->)%accept_Ok. split; [by repeat constructor|].
    intros Hle i Hi. simpl.
    destruct (Z.eq_dec i from_index) as [->|Hne1]; [by apply covered_end_l|].
    destruct (Z.eq_dec i to_index) as [->|Hne2]; [by apply covered_end_r|].
    apply covered_inside; [lia|]. eapply scan_within; [done|done|lia]. }
  destruct (simplify_pts depth pts tolerance from_index maxindex) as [out1 [u1|e]] eqn:E1; [|done].
  destruct (simplify_pts depth pts tolerance maxindex to_index) as [out2 r] eqn:E2.
  intros [= <- ->].
  pose proof (scan_Ok _ _ _ _ _ Hscan) as [Hwhere _].
  assert (Hmax : 0 <= maxindex) by (destruct Hwhere as [[= _ ->]|[? _]]; lia).
  destruct (IH _ _ _ _ _ _ Hfrom E1) as [F1 C1].
  destruct (IH _ _ _ _ _ _ Hmax E2) as [F2 C2].
  split; [by apply Forall_app|].
  intros Hle i Hi.
  destruct (simplify_pts_head _ _ _ _ _ _ _ E2) as (q & rest & ->).
  rewrite map_app. simpl.
  destruct (Z_le_gt_dec maxindex i) as [Hright|Hleft].
  - replace ((map fst out1 ++ maxindex :: map fst rest) ++ [to_index])
      with (map fst out1 ++ (map fst ((maxindex, q) :: rest) ++ [to_index]))
      by (simpl; by rewrite <- app_assoc).
    apply covered_app_r. apply (C2 ltac:(lia) i). lia.
  - destruct Hwhere as [[= _ ->]|[Hin _]]; [lia|].
    replace ((map fst out1 ++ maxindex :: map fst rest) ++ [to_index])
      with ((map fst out1 ++ [maxindex]) ++ (map fst rest ++ [to_index]))
      by (by rewrite <- !app_assoc).
    apply covered_app_l. apply (C1 ltac:(lia) i). lia.
Qed.

(** X22: when [approximate] returns, no point of the polyline deviates
    from the result by more than the tolerance, as [deviation] measures
    it.  The result is the points at some indices [idx] of the
    polyline, and every position [i] of the polyline is covered by a
    segment of the result, between two consecutive indices [a <= i <= b]
    of [idx]: the point at [i] is an end of the segment, or its deviation
    from the line through the two ends is not above the tolerance, and is
    [<=] the tolerance unless it is a NaN. *)
Theorem approximate_within_tolerance (depth : nat) (w : World) (self : ref)
    (S : PolyLineObj) (tolerance : float) (r : ref) (w' : World) :
  heap w !! self = Some S ->
  (0 <=? tolerance)%float = true ->
  PolyLine.approximate depth self tolerance w = (Ok r, w') ->
  exists (R : PolyLineObj) (idx : list Z),
    heap w' !! r = Some R
    /\ Forall2 (fun i p => getitem (_points S) i = Ok p) idx (_points R)
    /\ forall i, 0 <= i < Z.of_nat (length (_points S)) ->
         covered (_points S) tolerance idx i = true.
Proof.
  intros HS _ Hrun.
  destruct (approximate_Ok _ _ _ _ _ _ _ HS Hrun) as (out & u & p & E & G & HR).
  destruct (simplify_pts_covers _ _ _ _ _ _ _ (Z.le_refl 0) E) as [F C].
  exists (PolyLineObj_of [] (map snd out ++ [p])),
         (map fst out ++ [Z.of_nat (length (_points S)) - 1]).
  split; [done|]. split.
  - simpl. apply Forall2_app.
    + clear -F. induction F as [|[i q] out Hq F IH]; simpl; by constructor.
    + constructor; [|constructor]. by apply getitem_last.
  - intros i Hi. apply C; lia.
Qed.

Lemma approximate_within_tolerance_witness :
  exists (R : PolyLineObj) (idx : list Z),
    heap (snd (PolyLine.approximate 1000 0%nat 1%float (world_of flat4))) !! 1%nat = Some R
    /\ Forall2 (fun i p => getitem flat4 i = Ok p) idx (_points R)
    /\ forall i, 0 <= i < 4 -> covered flat4 1%float idx i = true.
Proof.
  refine (approximate_within_tolerance 1000 (world_of flat4) 0%nat
            (PolyLineObj_of [] flat4) 1%float 1%nat _ eq_refl eq_refl _).
  vm_compute. reflexivity.
Defined.

(** C1, on an input where the bound fails: [approximate] drops a point
    that is far from the result.  All coordinates of [far3] are finite;
    in [normal_intercept] the product [seg_slope * p1.x] overflows, the
    intercept is [(inf, nan)], and the deviation of the middle point is
    NaN.  A NaN is not above [maxdev], so the point is dropped at
    tolerance 1, and the result is the two end points; no choice of
    indices makes the bound hold.  The same three points scaled by
    [2^-660], which binary64 does exactly, have a deviation of 3: the
    dropped point is [3 * 2^660] away from the line through the two
    points that are kept. *)
Theorem deviation_bound_fails_on_overflow :
  (0 <=? 1)%float = true
  /\ run_approximate 1000 far3 1%float = Ok (picked far3 [0; 2]%nat)
  /\ normal_intercept (pt 0x1p664 0) (pt 0x1.8p664 0x1p1023) (pt 0x1.4p664 0x1p1020)
     = Ok (pt infinity nan)
  /\ deviation_of far3 0 2 1 = Ok nan
  /\ deviation (pt 16 0) (pt 24 0x1p363) (pt 20 0x1p360) = Ok 3%float
  /\ forall idx,
       Forall2 (fun i p => getitem far3 i = Ok p) idx (picked far3 [0; 2]%nat) ->
       ~ bounded_by far3 1%float idx.
Proof.
  split; [reflexivity|]. split; [vm_compute; reflexivity|].
  split; [vm_compute; reflexivity|]. split; [vm_compute; reflexivity|].
  split; [vm_compute; reflexivity|].
  intros idx Hidx Hb.
  destruct idx as [|a [|b [|c idx]]].
  - inversion Hidx.
  - inversion Hidx as [|? ? ? ? _ H2]; subst. inversion H2.
  - apply Forall2_cons in Hidx as [Ha Hidx]. apply Forall2_cons in Hidx as [Hb2 _].
    destruct (Hb 1) as (a' & b' & Hin & Hrange & Hcase); [simpl; lia|].
    simpl in Hin. destruct Hin as [[= <- <-]|[]].
    destruct Hcase as [<-|[<-|(pa & pb & p & d & Ga & Gb & G & D & Hle)]].
    + apply (f_equal (fun r => abscissa_is r 0x1p664)) in Ha.
      vm_compute in Ha. discriminate.
    + apply (f_equal (fun r => abscissa_is r 0x1.8p664)) in Hb2.
      vm_compute in Hb2. discriminate.
    + rewrite Ha in Ga. rewrite Hb2 in Gb. injection Ga as <-. injection Gb as <-.
      assert (G' : getitem far3 1 = Ok (Object 41 (pt 0x1.4p664 0x1p1020))) by reflexivity.
      rewrite G' in G. injection G as <-.
      assert (D' : deviation (pt 0x1p664 0) (pt 0x1.8p664 0x1p1023) (pt 0x1.4p664 0x1p1020)
                   = Ok nan) by (vm_compute; reflexivity).
      cbn [point] in D. rewrite D' in D. injection D as <-. vm_compute in Hle.
      discriminate.
  - inversion Hidx as [|? ? ? ? _ H2]; subst. inversion H2 as [|? ? ? ? _ H3]; subst.
    inversion H3.
Qed.

(** * Tolerance and the number of points *)

(** A tighter tolerance keeps at least as many points. *)
Lemma simplify_pts_length_mono pts t1 t2 :
  (t1 <? t2)%float = true ->
  forall d1 d2 from_index to_index out1 u1 out2 u2,
  simplify_pts d1 pts t1 from_index to_index = (out1, Ok u1) ->
  simplify_pts d2 pts t2 from_index to_index = (out2, Ok u2) ->
  (length out2 <= length out1)%nat.
Proof.
  intros Ht. induction d1 as [|d1 IH]; intros d2 from_index to_index out1 u1 out2 u2; [done|].
  destruct d2 as [|d2]; [done|].
  rewrite !simplify_pts_S.
  destruct (to_index - from_index <? 2).
  { intros (p & _ & ->)%accept_Ok (q & _ & ->)%accept_Ok. done. }
  destruct (scan pts from_index to_index) as [[maxdev maxindex]|e]; [|done].
  destruct (maxdev <? t1)%float eqn:E1.
  { rewrite (PyFloat.ltb_trans _ _ _ E1 Ht).
    intros (p & _ & ->)%accept_Ok (q & _ & ->)%accept_Ok. done. }
  destruct (simplify_pts d1 pts t1 from_index maxindex) as [a1 [v1|e]] eqn:A1; [|done].
  destruct (simplify_pts d1 pts t1 maxindex to_index) as [b1 r1] eqn:B1.
  intros [= <- ->].
  destruct (maxdev <? t2)%float.
  { intros (q & _ & ->)%accept_Ok.
    destruct (simplify_pts_head _ _ _ _ _ _ _ A1) as (p & rest & ->). simpl. lia. }
  destruct (simplify_pts d2 pts t2 from_index maxindex) as [a2 [v2|e]] eqn:A2; [|done].
  destruct (simplify_pts d2 pts t2 maxindex to_index) as [b2 r2] eqn:B2.
  intros [= <- ->].
  rewrite !length_app.
  pose proof (IH _ _ _ _ _ _ _ A1 A2).
  pose proof (IH _ _ _ _ _ _ _ B1 B2).
  lia.
Qed.

(** X23: for tolerances [0 <= t1 < t2], when [approximate] returns for
    both, the result for [t1] has at least as many points as the result
    for [t2]. *)
Theorem approximate_tolerance_monotone (d1 d2 : nat) (w : World) (self : ref)
    (S : PolyLineObj) (t1 t2 : float) (r1 r2 : ref) (w1 w2 : World) (R1 R2 : PolyLineObj) :
  heap w !! self = Some S ->
  (0 <=? t1)%float = true -> (t1 <? t2)%float = true ->
  PolyLine.approximate d1 self t1 w = (Ok r1, w1) -> heap w1 !! r1 = Some R1 ->
  PolyLine.approximate d2 self t2 w = (Ok r2, w2) -> heap w2 !! r2 = Some R2 ->
  (length (_points R2) <= length (_points R1))%nat.
Proof.
  intros HS _ Ht H1 HR1 H2 HR2.
  destruct (approximate_Ok _ _ _ _ _ _ _ HS H1) as (out1 & u1 & p1 & E1 & _ & L1).
  destruct (approximate_Ok _ _ _ _ _ _ _ HS H2) as (out2 & u2 & p2 & E2 & _ & L2).
  rewrite HR1 in L1. rewrite HR2 in L2. injection L1 as ->. injection L2 as ->.
  simpl. rewrite !length_app, !length_map. simpl.
  pose proof (simplify_pts_length_mono _ _ _ Ht _ _ _ _ _ _ _ _ E1 E2). lia.
Qed.

Lemma approximate_tolerance_monotone_witness :
  (length (picked bump3 [0; 2]%nat) <= length bump3)%nat.
Proof.
  refine (approximate_tolerance_monotone 1000 1000 (world_of bump3) 0%nat
            (PolyLineObj_of [] bump3) 0.5%float 8%float 1%nat 1%nat
            (snd (PolyLine.approximate 1000 0%nat 0.5%float (world_of bump3)))
            (snd (PolyLine.approximate 1000 0%nat 8%float (world_of bump3)))
            (PolyLineObj_of [] bump3)
            (PolyLineObj_of [] (picked bump3 [0; 2]%nat))
            eq_refl eq_refl eq_refl _ _ _ _); vm_compute; reflexivity.
Defined.

(** * Tolerance 0, and polylines of one point *)

(** On three collinear points and tolerance 0 the call on the whole range
    calls itself on the same range, at every depth. *)
Lemma simplify_collinear3 depth :
  snd (simplify_pts depth collinear3 0%float 0 2) = Raise RecursionError.
Proof.
  induction depth as [|depth IH]; [done|].
  rewrite simplify_pts_S.
  change (2 - 0 <? 2) with false. cbv iota.
  change (scan collinear3 0 2) with (Ok (0%float, 0) : result (float * Z)).
  cbv iota beta.
  change (0 <? 0)%float with false. cbv iota.
  destruct (simplify_pts depth collinear3 0 0 0) as [out1 [[]|e]] eqn:E.
  - destruct (simplify_pts depth collinear3 0 0 2) as [out2 r]. exact IH.
  - destruct depth; [simpl in E; by injection E as <- <-| done].
Qed.

(** C3, on the input where the code does not do what the claim says:
    three collinear points and tolerance 0.  No deviation is above the
    initial [maxdev = 0], so [maxindex] is still 0, and [0 < 0] is false:
    the call on the range (0, 2) calls itself on (0, 0) and on (0, 2)
    again.  Whatever depth the interpreter allows, it is exceeded. *)
Theorem approximate_collinear_never_returns (depth : nat) :
  run_approximate depth collinear3 0%float = Raise RecursionError.
Proof.
  unfold run_approximate.
  rewrite (approximate_run depth (world_of collinear3) 0%nat
             (PolyLineObj_of [] collinear3) 0%float eq_refl).
  unfold approximate_pts.
  change (Z.of_nat (length (_points (PolyLineObj_of [] collinear3))) - 1) with 2.
  change (_points (PolyLineObj_of [] collinear3)) with collinear3.
  pose proof (simplify_collinear3 depth) as H.
  destruct (simplify_pts depth collinear3 0 0 2) as [out r]. simpl in H. subst r.
  reflexivity.
Qed.

(** C7, on an input where the code does not do what the claim says:
    three collinear points, [t1 = 0] and [t2 = 1].  At tolerance 1
    [approximate] returns the two end points.  At tolerance 0 it returns
    nothing whose points could be counted: whatever depth of recursion
    the interpreter allows, it is exceeded, as in C3. *)
Theorem approximate_count_undefined_at_zero :
  (0 <=? 0)%float = true
  /\ (0 <? 1)%float = true
  /\ run_approximate 1000 collinear3 1%float = Ok (picked collinear3 [0; 2]%nat)
  /\ forall depth, run_approximate depth collinear3 0%float = Raise RecursionError.
Proof.
  split; [reflexivity|]. split; [reflexivity|]. split; [by vm_compute|].
  intros depth. unfold run_approximate.
  rewrite (approximate_run depth (world_of collinear3) 0%nat
             (PolyLineObj_of [] collinear3) 0%float eq_refl).
  unfold approximate_pts. cbn [_points].
  pose proof (simplify_collinear3 depth) as H.
  change (Z.of_nat (length collinear3) - 1) with 2.
  destruct (simplify_pts depth collinear3 0 0 2) as [out r]. simpl in H. subst r.
  reflexivity.
Qed.

(** C2, on the inputs where the code does not do what the claim says.  A
    polyline of one point comes back with two points, the same point
    twice.  At tolerance 0, [bent5] comes back with seven points, out of
    order: the points at 1, 2, 3 are on a horizontal line, so the call on
    the range (1, 3) finds no deviation above 0 and calls itself on (1, 0)
    and (0, 3). *)
Theorem approximate_not_a_subsequence :
  (forall depth p tolerance, run_approximate (S depth) [p] tolerance = Ok [p; p])
  /\ run_approximate 1000 bent5 0%float = Ok bent5_once.
Proof.
  split.
  - intros depth p tolerance. reflexivity.
  - vm_compute. reflexivity.
Qed.

(** C6, on the input where the code does not do what the claim says:
    [bent5] at tolerance 0.  The first call returns seven points, and the
    call on that result returns eleven. *)
Theorem approximate_twice_differs :
  let '(r, w) := approximate_twice 1000 0%nat 0%float (world_of bent5) in
  r = Ok (1%nat, 2%nat)
  /\ _points <$> heap w !! 1%nat = Some bent5_once
  /\ _points <$> heap w !! 2%nat = Some bent5_twice
  /\ bent5_twice <> bent5_once.
Proof. vm_compute. repeat split; discriminate. Qed.

(** * Positive tolerance

    With a positive tolerance a range is split only at one of its interior
    indices, and the properties that fail above hold. *)

(** With a positive tolerance a range is split only at an interior index. *)
Lemma scan_split pts tolerance from_index to_index maxdev maxindex :
  (0 <? tolerance)%float = true ->
  scan pts from_index to_index = Ok (maxdev, maxindex) ->
  (maxdev <? tolerance)%float = false ->
  from_index < maxindex < to_index.
Proof.
  intros Hpos [[[= -> ->]|[H _]] _]%scan_Ok Hsplit; [congruence|done].
Qed.

Lemma simplify_pts_increasing depth : forall pts tolerance from_index to_index out u,
  (0 <? tolerance)%float = true ->
  from_index < to_index ->
  simplify_pts depth pts tolerance from_index to_index = (out, Ok u) ->
  StronglySorted Z.lt (map fst out)
  /\ Forall (fun i => from_index <= i < to_index) (map fst out).
Proof.
  induction depth as [|depth IH]; intros pts tolerance from_index to_index out u Hpos Hlt; [done|].
  rewrite simplify_pts_S.
  destruct (to_index - from_index <? 2).
  { intros (p & _ & ->)%accept_Ok. simpl. split; repeat constructor; lia. }
  destruct (scan pts from_index to_index) as [[maxdev maxindex]|e] eqn:Hscan; [|done].
  destruct (maxdev <? tolerance)%float eqn:Hflat.
  { intros (p & _ & ->)%accept_Ok. simpl. split; repeat constructor; lia. }
  pose proof (scan_split _ _ _ _ _ _ Hpos Hscan Hflat) as Hm.
  destruct (simplify_pts depth pts tolerance from_index maxindex) as [out1 [u1|e]] eqn:E1; [|done].
  destruct (simplify_pts depth pts tolerance maxindex to_index) as [out2 r] eqn:E2.
  intros [= <- ->].
  destruct (IH _ _ _ _ _ _ Hpos (proj1 Hm) E1) as [S1 B1].
  destruct (IH _ _ _ _ _ _ Hpos (proj2 Hm) E2) as [S2 B2].
  rewrite map_app. split.
  - apply StronglySorted_app_2; [|done|done].
    intros i j Hi Hj.
    rewrite Forall_forall in B1, B2.
    specialize (B1 i Hi). specialize (B2 j Hj). lia.
  - apply Forall_app. split.
    + eapply Forall_impl; [exact B1|]. simpl. lia.
    + eapply Forall_impl; [exact B2|]. simpl. lia.
Qed.

(** With a positive tolerance, a depth of the length of the range is
    enough for the recursion. *)
Lemma simplify_pts_depth depth : forall pts tolerance from_index to_index,
  (0 <? tolerance)%float = true ->
  (1 <= depth)%nat -> to_index - from_index <= Z.of_nat depth ->
  snd (simplify_pts depth pts tolerance from_index to_index) <> Raise RecursionError.
Proof.
  induction depth as [|depth IH]; intros pts tolerance from_index to_index Hpos Hd Hlen; [lia|].
  rewrite simplify_pts_S.
  destruct (to_index - from_index <? 2) eqn:Hbase.
  { destruct (accept pts from_index) as [out [u|e]] eqn:E; [done|].
    apply accept_Raise in E as ->. done. }
  apply Z.ltb_ge in Hbase.
  destruct (scan pts from_index to_index) as [[maxdev maxindex]|e] eqn:Hscan.
  2:{ simpl. intros [= ->]. by eapply fold_scan_Raise. }
  destruct (maxdev <? tolerance)%float eqn:Hflat.
  { destruct (accept pts from_index) as [out [u|e]] eqn:E; [done|].
    apply accept_Raise in E as ->. done. }
  pose proof (scan_split _ _ _ _ _ _ Hpos Hscan Hflat) as Hm.
  pose proof (IH pts tolerance from_index maxindex Hpos ltac:(lia) ltac:(lia)) as H1.
  pose proof (IH pts tolerance maxindex to_index Hpos ltac:(lia) ltac:(lia)) as H2.
  destruct (simplify_pts depth pts tolerance from_index maxindex) as [out1 [u1|e]]; [|done].
  by destruct (simplify_pts depth pts tolerance maxindex to_index) as [out2 r].
Qed.

(** For a positive tolerance, [approximate] on a polyline of [n] points
    needs no more than [n] nested calls (one for a single point). *)
Theorem approximate_positive_terminates (depth : nat) (w : World) (self : ref)
    (S : PolyLineObj) (tolerance : float) :
  heap w !! self = Some S ->
  (0 <? tolerance)%float = true ->
  (1 <= depth)%nat -> (length (_points S) <= depth)%nat ->
  fst (PolyLine.approximate depth self tolerance w) <> Raise RecursionError.
Proof.
  intros HS Hpos Hd Hlen. rewrite (approximate_run _ _ _ _ _ HS). simpl.
  unfold approximate_pts.
  pose proof (simplify_pts_depth depth (_points S) tolerance 0
                (Z.of_nat (length (_points S)) - 1) Hpos Hd ltac:(lia)) as H.
  destruct (simplify_pts depth (_points S) tolerance 0 (Z.of_nat (length (_points S)) - 1))
    as [out [u|e]]; simpl in *; [|congruence].
  destruct (getitem (_points S) (-1)) as [p|e] eqn:G; [done|].
  apply getitem_Raise in G as ->. done.
Qed.

(** X19: for a positive tolerance and at least two points, the result is the
    points at a strictly increasing sequence of indices that starts at the
    first point and ends at the last. *)
Theorem approximate_positive_subsequence (depth : nat) (w : World) (self : ref)
    (S : PolyLineObj) (tolerance : float) (r : ref) (w' : World) :
  heap w !! self = Some S ->
  (0 <? tolerance)%float = true ->
  (2 <= length (_points S))%nat ->
  PolyLine.approximate depth self tolerance w = (Ok r, w') ->
  exists (R : PolyLineObj) (idx : list Z),
    heap w' !! r = Some R
    /\ Forall2 (fun i p => getitem (_points S) i = Ok p) idx (_points R)
    /\ StronglySorted Z.lt idx
    /\ head idx = Some 0
    /\ last idx = Some (Z.of_nat (length (_points S)) - 1).
Proof.
  intros HS Hpos Hlen Hrun.
  destruct (approximate_Ok _ _ _ _ _ _ _ HS Hrun) as (out & u & p & E & G & HR).
  destruct (simplify_pts_covers _ _ _ _ _ _ _ (Z.le_refl 0) E) as [F _].
  assert (Hrange : 0 < Z.of_nat (length (_points S)) - 1) by lia.
  destruct (simplify_pts_increasing _ _ _ _ _ _ _ Hpos Hrange E) as [Hs Hb].
  destruct (simplify_pts_head _ _ _ _ _ _ _ E) as (q & rest & ->).
  exists (PolyLineObj_of [] (map snd ((0, q) :: rest) ++ [p])),
         (map fst ((0, q) :: rest) ++ [Z.of_nat (length (_points S)) - 1]).
  split; [done|]. split; [|split; [|split]].
  - cbn [_points]. apply Forall2_app.
    + clear -F. induction F as [|[i q'] out Hq F IH]; simpl; by constructor.
    + constructor; [|constructor]. by apply getitem_last.
  - apply StronglySorted_app_2; [|done|repeat constructor].
    intros i j Hi Hj%list_elem_of_singleton. subst j.
    rewrite Forall_forall in Hb. specialize (Hb i Hi). lia.
  - reflexivity.
  - apply last_snoc.
Qed.

(** * Simplifying a simplified polyline again *)

Lemma scan_first_max pts from_index to_index p1 p2 xs : forall acc,
  getitem pts from_index = Ok p1 -> getitem pts to_index = Ok p2 ->
  fold_result xs (scan_pts pts from_index to_index) acc
  = first_max (deviation_at pts p1 p2) xs acc.
Proof.
  intros acc G1 G2. revert acc. unfold first_max.
  induction xs as [|x xs IH]; intros [maxdev maxindex]; [done|].
  rewrite !fold_result_cons. unfold scan_pts at 1. unfold deviation_at at 1.
  unfold mbind, result_bind. rewrite G1, G2.
  destruct (getitem pts x) as [p|e]; [|done].
  destruct (deviation p1 p2 p) as [d|e]; [|done].
  destruct (maxdev <? d)%float; apply IH.
Qed.

Lemma first_max_cons dev x xs maxdev maxindex :
  first_max dev (x :: xs) (maxdev, maxindex) =
  match dev x with
  | Ok d => first_max dev xs (if (maxdev <? d)%float then (d, x) else (maxdev, maxindex))
  | Raise e => Raise e
  end.
Proof.
  unfold first_max. rewrite fold_result_cons. unfold mbind, result_bind.
  destruct (dev x) as [d|e]; [|done]. by destruct (maxdev <? d)%float.
Qed.

Lemma first_max_app dev xs1 xs2 acc :
  first_max dev (xs1 ++ xs2) acc =
  match first_max dev xs1 acc with
  | Ok acc' => first_max dev xs2 acc'
  | Raise e => Raise e
  end.
Proof.
  revert acc. induction xs1 as [|x xs1 IH]; intros [maxdev maxindex]; [done|].
  simpl app. rewrite !first_max_cons. destruct (dev x) as [d|e]; [|done]. apply IH.
Qed.

(** Where the scan ends: at its start, or at an index of the list with a
    larger deviation; and nothing it has seen is above its result. *)
Lemma first_max_Ok dev xs : forall maxdev0 maxindex0 maxdev maxindex,
  first_max dev xs (maxdev0, maxindex0) = Ok (maxdev, maxindex) ->
  ((maxdev, maxindex) = (maxdev0, maxindex0)
   \/ (In maxindex xs /\ (maxdev0 <? maxdev)%float = true))
  /\ (forall d, (maxdev0 <? d)%float = false -> (maxdev <? d)%float = false)
  /\ (forall x, In x xs -> exists d, dev x = Ok d /\ (maxdev <? d)%float = false).
Proof.
  induction xs as [|x xs IH]; intros maxdev0 maxindex0 maxdev maxindex.
  { intros [= <- <-]. repeat split; [by left|done|done]. }
  rewrite first_max_cons. destruct (dev x) as [d|e] eqn:D; [|done].
  destruct (maxdev0 <? d)%float eqn:C; intros H;
    destruct (IH _ _ _ _ H) as (Hfirst & Hmono & Hseen).
  - assert (Hmono0 : forall d', (maxdev0 <? d')%float = false -> (d <? d')%float = false).
    { intros d' Hd. destruct (d <? d')%float eqn:E; [|done].
      by rewrite (PyFloat.ltb_trans _ _ _ C E) in Hd. }
    repeat split.
    + right. destruct Hfirst as [[= -> ->]|[Hin Hlt]].
      * split; [by left|done].
      * split; [by right|]. by eapply PyFloat.ltb_trans.
    + intros d' Hd. by apply Hmono, Hmono0.
    + intros i [<-|Hin]; [|by apply Hseen].
      exists d. split; [done|]. apply Hmono, PyFloat.ltb_irrefl.
  - repeat split.
    + destruct Hfirst as [->|[Hin Hlt]]; [by left|right]. split; [by right|done].
    + done.
    + intros i [<-|Hin]; [|by apply Hseen].
      exists d. split; [done|]. by apply Hmono.
Qed.

(** After the maximum, the scan over kept indices changes nothing. *)
Lemma first_max_kept_after devR devL js xs maxdev b :
  kept devR devL js xs ->
  (forall x, In x xs -> exists d, devL x = Ok d /\ (maxdev <? d)%float = false) ->
  first_max devR js (maxdev, b) = Ok (maxdev, b).
Proof.
  induction 1 as [|x js xs K IH|j x js xs Hj K IH]; intros Hall; [done| |].
  - apply IH. intros x' Hx'. apply Hall. by right.
  - rewrite first_max_cons, Hj.
    destruct (Hall x (or_introl eq_refl)) as (d & -> & ->).
    apply IH. intros x' Hx'. apply Hall. by right.
Qed.

(** Before the maximum, the scan over kept indices stays at or below the
    scan over all indices. *)
Lemma first_max_kept_before devR devL js xs :
  kept devR devL js xs ->
  forall maxdevL a maxdevL' a' maxdevR b,
  first_max devL xs (maxdevL, a) = Ok (maxdevL', a') ->
  (maxdevL <? maxdevR)%float = false -> is_number maxdevR = true ->
  exists maxdevR' b',
    first_max devR js (maxdevR, b) = Ok (maxdevR', b')
    /\ (maxdevL' <? maxdevR')%float = false /\ is_number maxdevR' = true.
Proof.
  induction 1 as [|x js xs K IH|j x js xs Hj K IH];
    intros maxdevL a maxdevL' a' maxdevR b.
  - intros [= <- <-] Hle Hnum. by exists maxdevR, b.
  - rewrite first_max_cons. destruct (devL x) as [d|e]; [|done].
    destruct (maxdevL <? d)%float eqn:C; intros HL Hle Hnum.
    + eapply IH; [exact HL| |done].
      destruct (d <? maxdevR)%float eqn:E; [|done].
      by rewrite (PyFloat.ltb_trans _ _ _ C E) in Hle.
    + eapply IH; [exact HL|done|done].
  - rewrite !first_max_cons, Hj. destruct (devL x) as [d|e]; [|done].
    destruct (maxdevL <? d)%float eqn:C; intros HL Hle Hnum.
    + destruct (PyFloat.ltb_between _ maxdevR _ C Hnum) as [F|F]; [congruence|].
      rewrite F. eapply IH; [exact HL|apply PyFloat.ltb_irrefl|].
      by eapply PyFloat.ltb_is_number_r.
    + destruct (maxdevR <? d)%float eqn:E.
      * eapply IH; [exact HL|done|]. by eapply PyFloat.ltb_is_number_r.
      * eapply IH; [exact HL|done|done].
Qed.

(** The scan over the kept indices finds the same maximum, at the kept
    index that reads it. *)
Lemma first_max_kept devR devL js1 jm js2 xs1 m xs2 maxdev :
  kept devR devL js1 xs1 -> devR jm = devL m -> kept devR devL js2 xs2 ->
  ~ In m xs1 -> ~ In m xs2 ->
  (0 <? maxdev)%float = true ->
  first_max devL (xs1 ++ m :: xs2) (0%float, 0) = Ok (maxdev, m) ->
  first_max devR (js1 ++ jm :: js2) (0%float, 0) = Ok (maxdev, jm).
Proof.
  intros K1 Hm K2 Hm1 Hm2 Hpos.
  rewrite !first_max_app.
  destruct (first_max devL xs1 (0%float, 0)) as [[maxdev1 a1]|e] eqn:E1; [|done].
  cbv beta iota. rewrite first_max_cons.
  destruct (devL m) as [d|e] eqn:D; [|done].
  intros E2.
  destruct (first_max_kept_before _ _ _ _ K1 _ _ _ _ 0%float 0 E1
              (PyFloat.ltb_irrefl 0) eq_refl) as (maxdevR & b & -> & Hle & Hnum).
  cbv beta iota. rewrite first_max_cons, Hm.
  destruct (maxdev1 <? d)%float eqn:C;
    destruct (first_max_Ok _ _ _ _ _ _ E2) as (Hfirst2 & _ & Hseen2);
    (destruct Hfirst2 as [Heq|[Hin _]]; [|done]).
  - injection Heq as ->.
    destruct (PyFloat.ltb_between _ maxdevR _ C Hnum) as [F|F]; [congruence|].
    rewrite F. by eapply first_max_kept_after.
  - injection Heq as -> ->.
    destruct (first_max_Ok _ _ _ _ _ _ E1) as ([[= Hz _]|[Hin _]] & _ & _); [|done].
    rewrite Hz in Hpos. by rewrite PyFloat.ltb_irrefl in Hpos.
Qed.

Lemma kept_none devR devL xs : kept devR devL [] xs.
Proof. induction xs; by constructor. Qed.

Lemma kept_skips devR devL js ys xs :
  kept devR devL js xs -> kept devR devL js (ys ++ xs).
Proof. intros K. induction ys; [done|]. by constructor. Qed.

(** Indices in increasing order within a range are some of the indices of
    the range. *)
Lemma kept_sorted devR devL (items : list (Z * object)) : forall a b j0,
  StronglySorted Z.lt (map fst items) ->
  Forall (fun i => a <= i < b) (map fst items) ->
  (forall (t : nat) ip, items !! t = Some ip -> devR (j0 + Z.of_nat t) = devL (fst ip)) ->
  kept devR devL (range j0 (j0 + Z.of_nat (length items))) (range a b).
Proof.
  induction items as [|[i p] items IH]; intros a b j0 Hs Hb Hdev.
  { simpl. rewrite range_nil by lia. apply kept_none. }
  simpl in Hs, Hb. apply StronglySorted_cons in Hs as [Hlt Hs].
  apply Forall_cons in Hb as [Hi Hb].
  rewrite (range_app a i b) by lia. apply kept_skips.
  rewrite (range_cons i b) by lia.
  rewrite (range_cons j0) by (simpl length; lia).
  apply kept_keep.
  - specialize (Hdev 0%nat (i, p) eq_refl). by rewrite Z.add_0_r in Hdev.
  - replace (j0 + Z.of_nat (length ((i, p) :: items)))
      with ((j0 + 1) + Z.of_nat (length items)) by (simpl length; lia).
    apply IH; [done| |].
    + rewrite Forall_forall in Hlt, Hb |- *. intros i' Hi'.
      specialize (Hlt i' Hi'). specialize (Hb i' Hi'). lia.
    + intros t ip Ht. specialize (Hdev (S t) ip Ht).
      by replace (j0 + 1 + Z.of_nat t) with (j0 + Z.of_nat (S t)) by lia.
Qed.

Lemma placed_app_l pts k ps qs : placed pts k (ps ++ qs) -> placed pts k ps.
Proof. intros H j p Hj. apply H. by apply lookup_app_l_Some. Qed.

Lemma placed_app_r pts k ps qs :
  placed pts k (ps ++ qs) -> placed pts (k + Z.of_nat (length ps)) qs.
Proof.
  intros H j p Hj.
  replace (k + Z.of_nat (length ps) + Z.of_nat j)
    with (k + Z.of_nat (length ps + j)) by lia.
  apply H. rewrite lookup_app_r by lia.
  by replace (length ps + j - length ps)%nat with j by lia.
Qed.

Lemma placed_cons pts k p ps :
  placed pts k (p :: ps) -> getitem pts k = Ok p /\ placed pts (k + 1) ps.
Proof.
  intros H. split.
  - specialize (H 0%nat p eq_refl). by rewrite Z.add_0_r in H.
  - intros j q Hj. specialize (H (S j) q Hj).
    by replace (k + 1 + Z.of_nat j) with (k + Z.of_nat (S j)) by lia.
Qed.

Lemma deviation_at_placed pts pts' p1 p2 k (items : list (Z * object)) :
  Forall (read_at pts) items -> placed pts' k (map snd items) ->
  forall (t : nat) ip, items !! t = Some ip ->
    deviation_at pts' p1 p2 (k + Z.of_nat t) = deviation_at pts p1 p2 (fst ip).
Proof.
  intros Hread Hplaced t ip Ht. unfold deviation_at.
  rewrite (Hplaced t (snd ip)) by (by rewrite list_lookup_fmap, Ht).
  rewrite Forall_lookup in Hread. by rewrite (Hread t ip Ht).
Qed.

(** The scan of a split range, run on the points that were kept, splits
    at the same point. *)
Lemma rescan pts pts' from_index to_index maxdev maxindex k p_from p_m p_to
    (rest1 rest2 : list (Z * object)) :
  (0 <? maxdev)%float = true ->
  from_index < maxindex < to_index ->
  scan pts from_index to_index = Ok (maxdev, maxindex) ->
  getitem pts from_index = Ok p_from ->
  getitem pts maxindex = Ok p_m ->
  getitem pts to_index = Ok p_to ->
  Forall (read_at pts) rest1 -> Forall (read_at pts) rest2 ->
  StronglySorted Z.lt (map fst rest1) ->
  Forall (fun i => from_index + 1 <= i < maxindex) (map fst rest1) ->
  StronglySorted Z.lt (map fst rest2) ->
  Forall (fun i => maxindex + 1 <= i < to_index) (map fst rest2) ->
  let m' := k + 1 + Z.of_nat (length rest1) in
  let e' := m' + 1 + Z.of_nat (length rest2) in
  getitem pts' k = Ok p_from ->
  placed pts' (k + 1) (map snd rest1) ->
  getitem pts' m' = Ok p_m ->
  placed pts' (m' + 1) (map snd rest2) ->
  getitem pts' e' = Ok p_to ->
  scan pts' k e' = Ok (maxdev, m').
Proof.
  intros Hpos Hm Hscan G1 Gm G2 R1 R2 S1 B1 S2 B2 m' e' Q1 P1 Qm P2 Q2.
  unfold scan in *.
  rewrite (scan_first_max _ _ _ p_from p_to) in Hscan by done.
  rewrite (scan_first_max _ _ _ p_from p_to) by done.
  rewrite (range_app _ maxindex), (range_cons maxindex) in Hscan by lia.
  rewrite (range_app _ m' e'), (range_cons m' e') by lia.
  eapply first_max_kept; [| | | | |done|exact Hscan].
  - unfold m'. apply kept_sorted; [done|done|]. by apply deviation_at_placed.
  - unfold deviation_at. by rewrite Qm, Gm.
  - unfold e'. apply kept_sorted; [done|done|]. by apply deviation_at_placed.
  - intros Hin%In_range. lia.
  - intros Hin%In_range. lia.
Qed.

(** Simplifying the kept points of a range again keeps them all. *)
Lemma resimplify depth : forall pts tolerance from_index to_index out u p_to pts' k,
  (0 <? tolerance)%float = true ->
  from_index < to_index ->
  simplify_pts depth pts tolerance from_index to_index = (out, Ok u) ->
  getitem pts to_index = Ok p_to ->
  placed pts' k (map snd out ++ [p_to]) ->
  exists out',
    simplify_pts depth pts' tolerance k (k + Z.of_nat (length out)) = (out', Ok tt)
    /\ map snd out' = map snd out.
Proof.
  induction depth as [|depth IH];
    intros pts tolerance from_index to_index out u p_to pts' k Hpos Hlt; [done|].
  assert (Hone : forall p, getitem pts from_index = Ok p ->
            placed pts' k (map snd [(from_index, p)] ++ [p_to]) ->
            exists out',
              simplify_pts (S depth) pts' tolerance k
                (k + Z.of_nat (length [(from_index, p)])) = (out', Ok tt)
              /\ map snd out' = map snd [(from_index, p)]).
  { intros p G [Q _]%placed_cons. rewrite simplify_pts_S.
    replace (k + Z.of_nat (length [(from_index, p)]) - k <? 2) with true
      by (symmetry; apply Z.ltb_lt; simpl; lia).
    unfold accept. rewrite Q. by eexists. }
  rewrite simplify_pts_S.
  destruct (to_index - from_index <? 2).
  { intros (p & G & ->)%accept_Ok _. by apply Hone. }
  destruct (scan pts from_index to_index) as [[maxdev maxindex]|e] eqn:Hscan; [|done].
  destruct (maxdev <? tolerance)%float eqn:Hflat.
  { intros (p & G & ->)%accept_Ok _. by apply Hone. }
  clear Hone.
  pose proof (scan_split _ _ _ _ _ _ Hpos Hscan Hflat) as Hm.
  assert (Hmax : (0 <? maxdev)%float = true).
  { destruct (scan_Ok _ _ _ _ _ Hscan) as [[[= -> ->]|[_ H]] _]; [congruence|done]. }
  destruct (simplify_pts depth pts tolerance from_index maxindex) as [out1 [u1|e]] eqn:E1; [|done].
  destruct (simplify_pts depth pts tolerance maxindex to_index) as [out2 r] eqn:E2.
  intros [= <- ->] G2 Hplaced.
  destruct (simplify_pts_head _ _ _ _ _ _ _ E1) as (p_from & rest1 & ->).
  destruct (simplify_pts_head _ _ _ _ _ _ _ E2) as (p_m & rest2 & ->).
  pose proof (simplify_pts_read _ _ _ _ _ _ _ E1) as [G1 R1]%Forall_cons.
  pose proof (simplify_pts_read _ _ _ _ _ _ _ E2) as [Gm R2]%Forall_cons.
  destruct (simplify_pts_increasing _ _ _ _ _ _ _ Hpos (proj1 Hm) E1) as [S1 B1].
  destruct (simplify_pts_increasing _ _ _ _ _ _ _ Hpos (proj2 Hm) E2) as [S2 B2].
  simpl in S1, B1, S2, B2, G1, Gm.
  apply StronglySorted_cons in S1 as [L1 S1]. apply Forall_cons in B1 as [_ B1].
  apply StronglySorted_cons in S2 as [L2 S2]. apply Forall_cons in B2 as [_ B2].
  set (m' := k + 1 + Z.of_nat (length rest1)).
  set (e' := m' + 1 + Z.of_nat (length rest2)).
  assert (He : k + Z.of_nat (length (((from_index, p_from) :: rest1)
                                     ++ (maxindex, p_m) :: rest2)) = e').
  { rewrite length_app. simpl length. unfold e', m'. lia. }
  assert (Hm' : k + Z.of_nat (length ((from_index, p_from) :: rest1)) = m').
  { simpl length. unfold m'. lia. }
  (* where the kept points are *)
  assert (Hplaced1 : placed pts' k (map snd ((from_index, p_from) :: rest1) ++ [p_m])).
  { intros j p Hj. apply Hplaced. rewrite map_app, <- app_assoc.
    destruct (decide (j < length (map snd ((from_index, p_from) :: rest1)))%nat) as [Hj'|Hj'].
    - rewrite lookup_app_l in Hj |- * by done. done.
    - rewrite lookup_app_r in Hj |- * by lia.
      destruct (j - length (map snd ((from_index, p_from) :: rest1)))%nat; [done|].
      by destruct n. }
  assert (Hplaced2 : placed pts' m' (map snd ((maxindex, p_m) :: rest2) ++ [p_to])).
  { rewrite map_app, <- app_assoc in Hplaced. apply placed_app_r in Hplaced.
    by rewrite length_map, Hm' in Hplaced. }
  destruct (placed_cons pts' k p_from (map snd rest1)
              (placed_app_l _ _ _ _ Hplaced1)) as [Q1 P1].
  destruct (placed_cons pts' m' p_m (map snd rest2 ++ [p_to]) Hplaced2) as [Qm P2'].
  pose proof (placed_app_l _ _ _ _ P2') as P2.
  destruct (placed_cons _ _ _ _ (placed_app_r _ _ _ _ P2')) as [Q2 _].
  rewrite length_map in Q2. fold e' in Q2.
  (* the scan *)
  rewrite He, simplify_pts_S.
  replace (e' - k <? 2) with false by (symmetry; apply Z.ltb_ge; unfold e', m'; lia).
  assert (Hscan' : scan pts' k e' = Ok (maxdev, m')).
  { apply (rescan pts pts' from_index to_index maxdev maxindex k p_from p_m p_to rest1 rest2);
      try done.
    - rewrite Forall_forall in L1, B1 |- *. intros i Hi.
      specialize (L1 i Hi). specialize (B1 i Hi). simpl in B1. lia.
    - rewrite Forall_forall in L2, B2 |- *. intros i Hi.
      specialize (L2 i Hi). specialize (B2 i Hi). simpl in B2. lia. }
  rewrite Hscan'. cbv iota beta. rewrite Hflat.
  (* the two halves *)
  destruct (IH pts tolerance from_index maxindex _ u1 p_m pts' k Hpos (proj1 Hm) E1 Gm Hplaced1)
    as (out1' & Hrun1 & Hout1).
  rewrite Hm' in Hrun1. rewrite Hrun1.
  destruct (IH pts tolerance maxindex to_index _ u p_to pts' m' Hpos (proj2 Hm) E2 G2 Hplaced2)
    as (out2' & Hrun2 & Hout2).
  replace (m' + Z.of_nat (length ((maxindex, p_m) :: rest2))) with e' in Hrun2
    by (simpl length; unfold e'; lia).
  rewrite Hrun2. eexists. split; [done|]. by rewrite !map_app, Hout1, Hout2.
Qed.

Lemma placed_self (ps : list object) : placed ps 0 ps.
Proof. intros j p Hj. by apply getitem_lookup. Qed.

(** With a positive tolerance, simplifying the result of [approximate]
    again returns the same points. *)
Lemma approximate_pts_idempotent depth pts tolerance kept_pts u :
  (0 <? tolerance)%float = true ->
  approximate_pts depth pts tolerance = (kept_pts, Ok u) ->
  approximate_pts depth kept_pts tolerance = (kept_pts, Ok tt).
Proof.
  intros Hpos. unfold approximate_pts at 1.
  destruct (simplify_pts depth pts tolerance 0 (Z.of_nat (length pts) - 1))
    as [out [u1|e]] eqn:E; [|done].
  destruct (getitem pts (-1)) as [p|e] eqn:G; [|done].
  intros [= <-].
  unfold approximate_pts. rewrite length_app, length_map. simpl length.
  replace (Z.of_nat (length out + 1) - 1) with (0 + Z.of_nat (length out)) by lia.
  rewrite getitem_snoc_last.
  destruct (Z_lt_le_dec 0 (Z.of_nat (length pts) - 1)) as [Hlong|Hshort].
  - destruct (resimplify depth pts tolerance 0 (Z.of_nat (length pts) - 1) out u1 p
                (map snd out ++ [p]) 0 Hpos Hlong E (getitem_last _ _ G) (placed_self _))
      as (out' & -> & ->). done.
  - destruct depth as [|depth]; [done|].
    rewrite simplify_pts_S in E.
    replace (Z.of_nat (length pts) - 1 - 0 <? 2) with true in E
      by (symmetry; apply Z.ltb_lt; lia).
    apply accept_Ok in E as (q & _ & ->).
    reflexivity.
Qed.

(** X20: for a positive tolerance, [L.approximate(t).approximate(t)] has the
    points of [L.approximate(t)]. *)
Theorem approximate_positive_idempotent (depth : nat) (w : World) (self : ref)
    (S : PolyLineObj) (tolerance : float) (once twice : ref) (w' : World) :
  heap w !! self = Some S ->
  (0 <? tolerance)%float = true ->
  approximate_twice depth self tolerance w = (Ok (once, twice), w') ->
  exists kept_pts,
    _points <$> heap w' !! once = Some kept_pts
    /\ _points <$> heap w' !! twice = Some kept_pts.
Proof.
  intros HS Hpos. unfold approximate_twice.
  unfold mbind at 1. unfold M_bind.
  rewrite (approximate_run _ _ _ _ _ HS).
  destruct (approximate_pts depth (_points S) tolerance) as [kept_pts [u|e]] eqn:E1; [|done].
  simpl fst. simpl snd. cbv iota beta.
  set (w1 := World_of (heap w ++ [PolyLineObj_of [] kept_pts]) (delivered w)).
  assert (H1 : heap w1 !! length (heap w) = Some (PolyLineObj_of [] kept_pts)).
  { simpl. rewrite lookup_app_r by lia. by rewrite Nat.sub_diag. }
  unfold mbind at 1. unfold M_bind.
  rewrite (approximate_run _ _ _ _ _ H1). simpl _points.
  rewrite (approximate_pts_idempotent _ _ _ _ _ Hpos E1).
  simpl. intros [= <- <- <-]. exists kept_pts. simpl. split.
  - rewrite lookup_app_l by (rewrite length_app; simpl; lia).
    rewrite lookup_app_r by lia. by rewrite Nat.sub_diag.
  - rewrite lookup_app_r by (rewrite length_app; simpl; lia).
    rewrite length_app. simpl.
    by replace (length (heap w) + 1 - (length (heap w) + 1))%nat with 0%nat by lia.
Qed.

(** * [deviation] is never negative *)

Lemma ltb_zero_spec a : (a <? 0)%float = SFltb (Prim2SF a) (S754_zero false).
Proof. by rewrite FloatAxioms.ltb_spec. Qed.

(** [dx*dx + dy*dy] is never below zero. *)
Lemma sum_of_squares_not_negative (dx dy : float) :
  (dx * dx + dy * dy <? 0)%float = false.
Proof.
  rewrite ltb_zero_spec, add_spec, !mul_spec.
  apply FloatSign.not_negative_ltb, FloatSign.SFadd_sign; apply FloatSign.SFmul_square.
Qed.

Lemma sqrt_not_negative (a : float) : (sqrt a <? 0)%float = false.
Proof.
  rewrite ltb_zero_spec, sqrt_spec.
  apply FloatSign.not_negative_ltb, FloatSign.SFsqrt_sign.
Qed.

(** The two outcomes of [deviation]. *)
Lemma deviation_outcome (p1 p2 p : Point.t) :
  (exists d, deviation p1 p2 p = Ok d /\ (d <? 0)%float = false)
  \/ deviation p1 p2 p = Raise ZeroDivisionError.
Proof.
  unfold deviation, mbind, result_bind.
  destruct (normal_intercept p1 p2 p) as [q|e] eqn:N.
  - left. unfold math_sqrt. rewrite sum_of_squares_not_negative.
    eexists. split; [reflexivity|]. apply sqrt_not_negative.
  - right. by rewrite (normal_intercept_Raise _ _ _ _ N).
Qed.

(** X1: [deviation] returns a value that is not negative, or raises
    [ZeroDivisionError]: the argument of [math.sqrt] is never negative,
    so that [ValueError] is never raised. *)
Theorem deviation_not_negative (p1 p2 p : Point.t) :
  match deviation p1 p2 p with
  | Ok d => (d <? 0)%float = false
  | Raise e => e = ZeroDivisionError
  end.
Proof. by destruct (deviation_outcome p1 p2 p) as [[d [-> Hd]]| ->]. Qed.

(** X2: on a vertical or a horizontal segment ([p2.x == p1.x] or
    [p2.y == p1.y]) [deviation] raises nothing. *)
Theorem deviation_axis_aligned (p1 p2 p : Point.t) :
  (Point.x p2 =? Point.x p1)%float || (Point.y p2 =? Point.y p1)%float = true ->
  exists d, deviation p1 p2 p = Ok d /\ (d <? 0)%float = false.
Proof.
  intros H. destruct (deviation_outcome p1 p2 p) as [Hd|D]; [done|].
  revert D. unfold deviation, normal_intercept, mbind, result_bind.
  destruct (Point.x p2 =? Point.x p1)%float.
  - unfold math_sqrt. by rewrite sum_of_squares_not_negative.
  - simpl in H. rewrite H. unfold math_sqrt. by rewrite sum_of_squares_not_negative.
Qed.

Lemma deviation_axis_aligned_witness :
  exists d, deviation (pt 0 3) (pt 10 3) (pt 4 7) = Ok d /\ (d <? 0)%float = false.
Proof. apply (deviation_axis_aligned (pt 0 3) (pt 10 3) (pt 4 7)). reflexivity. Defined.

(** * [Point.__eq__] *)

Lemma SFcompare_trans_Eq x y z :
  SFcompare x y = Some Eq -> SFcompare y z = Some Eq -> SFcompare x z = Some Eq.
Proof. FloatOrder.by_cases. Qed.

Lemma eqb_trans a b c :
  (a =? b)%float = true -> (b =? c)%float = true -> (a =? c)%float = true.
Proof. rewrite !PyFloat.eqb_Eq. apply SFcompare_trans_Eq. Qed.

(** The only float that is not equal to itself is the NaN. *)
Lemma eqb_refl_false a : (a =? a)%float = false <-> a = nan.
Proof.
  split.
  - intros H. apply Prim2SF_inj.
    change (Prim2SF nan) with S754_nan.
    rewrite FloatAxioms.eqb_spec in H. unfold SFeqb in H.
    destruct (FloatOrder.SFcompare_refl (Prim2SF a)) as [E|E]; rewrite E in H; [done|].
    by destruct (Prim2SF a) as [s|s| |s m e].
  - by intros ->.
Qed.

Lemma point_eq_symmetric p q : Point.__eq__ p q = Point.__eq__ q p.
Proof.
  unfold Point.__eq__.
  by rewrite (PyFloat.eqb_sym (Point.x p)), (PyFloat.eqb_sym (Point.y p)).
Qed.

(** X3: [Point.__eq__] is symmetric and transitive, and a point is equal to
    itself unless one of its coordinates is a NaN. *)
Theorem point_eq_partial_equivalence :
  (forall p q, Point.__eq__ p q = Point.__eq__ q p)
  /\ (forall p q r, Point.__eq__ p q = true -> Point.__eq__ q r = true ->
        Point.__eq__ p r = true)
  /\ (forall p, Point.__eq__ p p = false <-> Point.x p = nan \/ Point.y p = nan).
Proof.
  split; [|split].
  - apply point_eq_symmetric.
  - unfold Point.__eq__. intros p q r [X1 Y1]%andb_true_iff [X2 Y2]%andb_true_iff.
    apply andb_true_iff. split; by eapply eqb_trans.
  - intros p. unfold Point.__eq__. rewrite andb_false_iff, !eqb_refl_false. done.
Qed.

(** * The PolyLine as a container *)

Lemma getitem_in_range {A : Type} (l : list A) (i : Z) :
  - Z.of_nat (length l) <= i < Z.of_nat (length l) ->
  getitem l i = match l !! Z.to_nat (i mod Z.of_nat (length l)) with
                | Some a => Ok a
                | None => Raise IndexError
                end
  /\ is_Some (l !! Z.to_nat (i mod Z.of_nat (length l))).
Proof.
  intros H. unfold getitem.
  assert (Hmod : i mod Z.of_nat (length l) = if i <? 0 then i + Z.of_nat (length l) else i).
  { destruct (i <? 0) eqn:E.
    - apply Z.ltb_lt in E. symmetry. apply Z.mod_unique with (q := -1); lia.
    - apply Z.ltb_ge in E. apply Z.mod_small. lia. }
  rewrite Hmod. cbv zeta.
  assert (Hj : 0 <= (if i <? 0 then i + Z.of_nat (length l) else i) < Z.of_nat (length l)).
  { destruct (i <? 0) eqn:E; [apply Z.ltb_lt in E|apply Z.ltb_ge in E]; lia. }
  replace (_ <? 0) with false by (symmetry; apply Z.ltb_ge; lia).
  split; [done|]. apply lookup_lt_is_Some. lia.
Qed.

Lemma getitem_out_of_range {A : Type} (l : list A) (i : Z) :
  ~ (- Z.of_nat (length l) <= i < Z.of_nat (length l)) ->
  getitem l i = Raise IndexError.
Proof.
  intros H. unfold getitem. cbv zeta.
  destruct (i <? 0) eqn:E; [apply Z.ltb_lt in E|apply Z.ltb_ge in E].
  - replace (i + Z.of_nat (length l) <? 0) with true by (symmetry; apply Z.ltb_lt; lia). done.
  - rewrite (proj2 (Z.ltb_ge i 0) E).
    rewrite lookup_ge_None_2; [done|lia].
Qed.

(** X4: [self[index]] returns the point at [index mod len(self)] when
    [-len(self) <= index < len(self)], raises [IndexError] otherwise, and
    leaves the store as it was. *)
Theorem getitem_bounds (w : World) (self : ref) (S : PolyLineObj) (index : Z) :
  heap w !! self = Some S ->
  let n := Z.of_nat (length (_points S)) in
  (- n <= index < n ->
     exists p, _points S !! Z.to_nat (index mod n) = Some p
               /\ PolyLine.__getitem__ self index w = (Ok p, w))
  /\ (~ (- n <= index < n) ->
     PolyLine.__getitem__ self index w = (Raise IndexError, w)).
Proof.
  intros HS n. subst n. unfold PolyLine.__getitem__, mbind, M_bind, lift.
  rewrite (load_run _ _ _ HS). split.
  - intros H. destruct (getitem_in_range (_points S) index H) as [E [p Hp]].
    exists p. split; [done|]. by rewrite E, Hp.
  - intros H. by rewrite getitem_out_of_range.
Qed.

Lemma getitem_bounds_witness :
  exists p, (objects 0 [pt 1 2; pt 3 4; pt 5 6]) !! Z.to_nat ((-1) mod 3) = Some p
            /\ PolyLine.__getitem__ 0%nat (-1) (world_of (objects 0 [pt 1 2; pt 3 4; pt 5 6]))
               = (Ok p, world_of (objects 0 [pt 1 2; pt 3 4; pt 5 6])).
Proof.
  apply (proj1 (getitem_bounds (world_of (objects 0 [pt 1 2; pt 3 4; pt 5 6])) 0%nat
                  (PolyLineObj_of [] (objects 0 [pt 1 2; pt 3 4; pt 5 6])) (-1) eq_refl)).
  simpl. lia.
Defined.

Lemma len_run w self S :
  heap w !! self = Some S ->
  PolyLine.__len__ self w = (Ok (Z.of_nat (length (_points S))), w).
Proof.
  intros HS. unfold PolyLine.__len__, mbind, M_bind. by rewrite (load_run _ _ _ HS).
Qed.

Lemma getitem_run w self S index :
  heap w !! self = Some S ->
  PolyLine.__getitem__ self index w = (getitem (_points S) index, w).
Proof.
  intros HS. unfold PolyLine.__getitem__, mbind, M_bind, lift.
  by rewrite (load_run _ _ _ HS).
Qed.

Lemma getitem_app_l {A : Type} (l1 l2 : list A) (i : Z) (a : A) :
  0 <= i -> getitem l1 i = Ok a -> getitem (l1 ++ l2) i = Ok a.
Proof.
  intros Hi. unfold getitem. cbv zeta.
  rewrite (proj2 (Z.ltb_ge i 0) Hi). rewrite (proj2 (Z.ltb_ge i 0) Hi).
  destruct (l1 !! Z.to_nat i) as [b|] eqn:E; [|done].
  intros [= ->]. by rewrite (lookup_app_l_Some _ _ _ _ E).
Qed.

(** X5: [self.append(p)] makes [self] one point longer, with [p] last and
    the points at the indices [0 <= i] as before; it changes neither the
    listeners of [self] nor any other PolyLine, and notifies nobody. *)
Theorem append_then_read (w : World) (self : ref) (S : PolyLineObj) (p : object) :
  heap w !! self = Some S ->
  exists w',
    PolyLine.append self p w = (Ok tt, w')
    /\ PolyLine.__len__ self w' = (Ok (Z.of_nat (length (_points S)) + 1), w')
    /\ PolyLine.__getitem__ self (-1) w' = (Ok p, w')
    /\ (forall i q, 0 <= i -> getitem (_points S) i = Ok q ->
          PolyLine.__getitem__ self i w' = (Ok q, w'))
    /\ _listeners <$> heap w' !! self = Some (_listeners S)
    /\ (forall r, r <> self -> heap w' !! r = heap w !! r)
    /\ delivered w' = delivered w.
Proof.
  intros HS. exists (extended w self S [p]).
  pose proof (extended_lookup w self S [p] HS) as HS'.
  split; [by apply append_run|]. split; [|split; [|split; [|split; [|split]]]].
  - rewrite (len_run _ _ _ HS'). simpl. rewrite length_app. simpl. do 2 f_equal. lia.
  - rewrite (getitem_run _ _ _ _ HS'). simpl _points. by rewrite getitem_snoc_last.
  - intros i q Hi Hq. rewrite (getitem_run _ _ _ _ HS'). simpl _points.
    by rewrite (getitem_app_l _ _ _ _ Hi Hq).
  - by rewrite HS'.
  - intros r Hr. by apply extended_lookup_ne.
  - done.
Qed.

Lemma append_then_read_witness :
  exists w',
    PolyLine.append 0%nat (Object 2 (pt 5 6)) (world_of (objects 0 [pt 1 2; pt 3 4])) = (Ok tt, w')
    /\ PolyLine.__len__ 0%nat w' = (Ok (2 + 1), w')
    /\ PolyLine.__getitem__ 0%nat (-1) w' = (Ok (Object 2 (pt 5 6)), w')
    /\ (forall i q, 0 <= i -> getitem (objects 0 [pt 1 2; pt 3 4]) i = Ok q ->
          PolyLine.__getitem__ 0%nat i w' = (Ok q, w'))
    /\ _listeners <$> heap w' !! 0%nat = Some []
    /\ (forall r, r <> 0%nat -> heap w' !! r = heap (world_of (objects 0 [pt 1 2; pt 3 4])) !! r)
    /\ delivered w' = [].
Proof.
  exact (append_then_read (world_of (objects 0 [pt 1 2; pt 3 4])) 0%nat
           (PolyLineObj_of [] (objects 0 [pt 1 2; pt 3 4])) (Object 2 (pt 5 6)) eq_refl).
Defined.

Lemma appends_run ps : forall w self S,
  heap w !! self = Some S ->
  appends self ps w = (Ok tt, extended w self S ps).
Proof.
  unfold appends. induction ps as [|p ps IH]; intros w self S HS.
  - simpl. unfold mret, M_ret. by rewrite extended_nil.
  - simpl. unfold mbind, M_bind. rewrite (append_run _ _ _ _ HS).
    rewrite (IH _ self (appended S [p])) by (by apply extended_lookup).
    by rewrite extended_extended.
Qed.

(** X6: a new PolyLine to which the points [ps] are appended one by one
    holds exactly [ps], in that order, and no listener; it is a new object,
    after those of the store, which are as they were. *)
Theorem polyline_of_points (ps : list object) (w : World) :
  polyline_of ps w
  = (Ok (length (heap w)),
     World_of (heap w ++ [PolyLineObj_of [] ps]) (delivered w)).
Proof.
  unfold polyline_of, PolyLine.__init__, mbind, M_bind, mret, M_ret. unfold alloc at 1.
  set (w1 := World_of (heap w ++ [PolyLineObj_of [] []]) (delivered w)).
  assert (H1 : heap w1 !! length (heap w) = Some (PolyLineObj_of [] [])).
  { simpl. rewrite lookup_app_r by lia. by rewrite Nat.sub_diag. }
  rewrite (appends_run ps w1 _ _ H1). unfold w1. by rewrite extended_fresh.
Qed.

(** * Listeners

    A listener is an object of the caller: the module only calls its
    [notify].  The calls are recorded in the order they are made. *)

Lemma for_in_app {A St : Type} (xs ys : list A) (body : A -> St -> M St) : forall s w,
  for_in (xs ++ ys) body s w
  = match for_in xs body s w with
    | (Ok s', w') => for_in ys body s' w'
    | (Raise e, w') => (Raise e, w')
    end.
Proof.
  induction xs as [|x xs IH]; intros s w; [done|].
  simpl. unfold mbind, M_bind. destruct (body x s w) as [[s'|e] w']; [apply IH|done].
Qed.

(** The loop of [notify_all] reads the calls made so far, and no
    PolyLine. *)
Lemma notify_loop_frame notify name opts ls : forall w h,
  for_in ls (fun l _ => deliver notify (Notification l name opts)) tt
         (World_of h (delivered w))
  = (fst (for_in ls (fun l _ => deliver notify (Notification l name opts)) tt w),
     World_of h
       (delivered
          (snd (for_in ls (fun l _ => deliver notify (Notification l name opts)) tt w)))).
Proof.
  induction ls as [|l ls IH]; intros w h; [done|].
  simpl. unfold mbind, M_bind. unfold deliver at 1 3 5. cbn [delivered heap].
  destruct (notify (delivered w) (Notification l name opts)) as [[]|e]; [|done].
  apply (IH (World_of (heap w) (delivered w ++ [Notification l name opts])) h).
Qed.

(** The loop of [notify_all] calls the listeners in turn and stops at the
    first call that raises. *)
Lemma notify_loop notify name opts ls : forall w,
  exists called rest outcome,
    ls = called ++ rest
    /\ for_in ls (fun l _ => deliver notify (Notification l name opts)) tt w
       = (outcome,
          World_of (heap w)
                   (delivered w ++ map (fun l => Notification l name opts) called))
    /\ ((outcome = Ok tt /\ rest = []
         /\ all_return notify (delivered w) name opts called)
        \/ (exists before l e,
              outcome = Raise e /\ called = before ++ [l]
              /\ all_return notify (delivered w) name opts before
              /\ notify (delivered w ++ map (fun l' => Notification l' name opts) before)
                        (Notification l name opts) = Raise e)).
Proof.
  induction ls as [|l ls IH]; intros w.
  - exists [], [], (Ok tt). split; [done|]. split.
    + simpl. unfold mret, M_ret. rewrite app_nil_r. by destruct w.
    + left. split; [done|]. split; [done|]. by intros k l'.
  - simpl. unfold mbind, M_bind. unfold deliver at 1.
    destruct (notify (delivered w) (Notification l name opts)) as [[]|e] eqn:Hl.
    + destruct (IH (World_of (heap w) (delivered w ++ [Notification l name opts])))
        as (called & rest & outcome & -> & Hrun & Hcase).
      exists (l :: called), rest, outcome. split; [done|]. split.
      { rewrite Hrun. simpl. by rewrite <- app_assoc. }
      simpl in Hcase.
      destruct Hcase as [(-> & -> & Hall)|(before & l0 & e & -> & -> & Hall & Hraise)].
      * left. split; [done|]. split; [done|].
        intros [|k] l' Hk; simpl in *.
        -- injection Hk as <-. by rewrite app_nil_r.
        -- specialize (Hall k l' Hk). by rewrite <- app_assoc in Hall.
      * right. exists (l :: before), l0, e. split; [done|]. split; [done|]. split.
        -- intros [|k] l' Hk; simpl in *.
           ++ injection Hk as <-. by rewrite app_nil_r.
           ++ specialize (Hall k l' Hk). by rewrite <- app_assoc in Hall.
        -- simpl. by rewrite <- app_assoc in Hraise.
    + exists [l], ls, (Raise e). split; [done|]. split; [done|].
      right. exists [], l, e. split; [done|]. split; [done|]. split.
      * by intros k l'.
      * simpl. by rewrite app_nil_r.
Qed.

(** X7: [notify_all] calls [notify] on the registered listeners in the
    order of registration, once per registration, each time with the
    event name and the options it was given, until a call raises.  When
    every call returns, every listener has been called and [notify_all]
    returns.  When a call raises, [notify_all] raises the same exception,
    and the listeners registered after that one are not called.  The
    PolyLines are as they were. *)
Theorem notify_all_delivers (notify : behaviour) (w : World) (self : ref)
    (S : PolyLineObj) (name : string) (opts : options) :
  heap w !! self = Some S ->
  exists called rest outcome,
    _listeners S = called ++ rest
    /\ PolyLine.notify_all notify self name opts w
       = (outcome,
          World_of (heap w)
                   (delivered w ++ map (fun l => Notification l name opts) called))
    /\ ((outcome = Ok tt /\ rest = []
         /\ all_return notify (delivered w) name opts called)
        \/ (exists before l e,
              outcome = Raise e /\ called = before ++ [l]
              /\ all_return notify (delivered w) name opts before
              /\ notify (delivered w ++ map (fun l' => Notification l' name opts) before)
                        (Notification l name opts) = Raise e)).
Proof.
  intros HS. unfold PolyLine.notify_all, mbind, M_bind.
  rewrite (load_run _ _ _ HS). apply notify_loop.
Qed.

(** Three registrations, of which the second raises: the first two are
    called, the third is not.  When all return, the three are called. *)
Lemma notify_all_delivers_witness :
  PolyLine.notify_all one_raises 0%nat "trial_approx" segment_0_3
    (World_of [PolyLineObj_of [7%nat; 9%nat; 7%nat] flat4] [])
  = (Raise (Exception "ViewClosed"),
     World_of [PolyLineObj_of [7%nat; 9%nat; 7%nat] flat4]
       [Notification 7%nat "trial_approx" segment_0_3;
        Notification 9%nat "trial_approx" segment_0_3])
  /\ PolyLine.notify_all recording 0%nat "trial_approx" segment_0_3
       (World_of [PolyLineObj_of [7%nat; 9%nat; 7%nat] flat4] [])
     = (Ok tt,
        World_of [PolyLineObj_of [7%nat; 9%nat; 7%nat] flat4]
          [Notification 7%nat "trial_approx" segment_0_3;
           Notification 9%nat "trial_approx" segment_0_3;
           Notification 7%nat "trial_approx" segment_0_3])
  /\ exists called rest outcome,
       [7%nat; 9%nat; 7%nat] = called ++ rest
       /\ PolyLine.notify_all one_raises 0%nat "trial_approx" segment_0_3
            (World_of [PolyLineObj_of [7%nat; 9%nat; 7%nat] flat4] [])
          = (outcome,
             World_of [PolyLineObj_of [7%nat; 9%nat; 7%nat] flat4]
               ([] ++ map (fun l => Notification l "trial_approx" segment_0_3) called))
       /\ ((outcome = Ok tt /\ rest = []
            /\ all_return one_raises [] "trial_approx" segment_0_3 called)
           \/ (exists before l e,
                 outcome = Raise e /\ called = before ++ [l]
                 /\ all_return one_raises [] "trial_approx" segment_0_3 before
                 /\ one_raises
                      ([] ++ map (fun l' => Notification l' "trial_approx" segment_0_3)
                                 before)
                      (Notification l "trial_approx" segment_0_3) = Raise e)).
Proof.
  split; [reflexivity|]. split; [reflexivity|].
  exact (notify_all_delivers one_raises
           (World_of [PolyLineObj_of [7%nat; 9%nat; 7%nat] flat4] [])
           0%nat (PolyLineObj_of [7%nat; 9%nat; 7%nat] flat4) "trial_approx" segment_0_3
           eq_refl).
Defined.

(** X8: [add_listener] registers the listener after those already
    registered, also when it is registered already; it changes neither
    the points of the PolyLine nor any other PolyLine, and calls no
    [notify].  From then on [notify_all] makes the calls it made before
    and, when all of them return, one more, to the new listener. *)
Theorem add_listener_registers (notify : behaviour) (w : World) (self : ref)
    (S : PolyLineObj) (l : listener) (name : string) (opts : options) :
  heap w !! self = Some S ->
  exists w',
    PolyLine.add_listener self l w = (Ok tt, w')
    /\ heap w' !! self = Some (PolyLineObj_of (_listeners S ++ [l]) (_points S))
    /\ (forall r, r <> self -> heap w' !! r = heap w !! r)
    /\ delivered w' = delivered w
    /\ delivered (snd (PolyLine.notify_all notify self name opts w'))
       = delivered (snd (PolyLine.notify_all notify self name opts w))
         ++ match fst (PolyLine.notify_all notify self name opts w) with
            | Ok _ => [Notification l name opts]
            | Raise _ => []
            end.
Proof.
  intros HS.
  exists (updated w self (PolyLineObj_of (_listeners S ++ [l]) (_points S))).
  assert (HS' : heap (updated w self (PolyLineObj_of (_listeners S ++ [l]) (_points S)))
                !! self = Some (PolyLineObj_of (_listeners S ++ [l]) (_points S))).
  { simpl. apply list_lookup_insert_eq. by eapply lookup_lt_Some. }
  split; [|split; [done|split; [|split; [done|]]]].
  - unfold PolyLine.add_listener, mbind, M_bind. rewrite (load_run _ _ _ HS).
    unfold store. by rewrite HS.
  - intros r Hr. simpl. by apply list_lookup_insert_ne.
  - unfold PolyLine.notify_all, mbind, M_bind.
    rewrite (load_run _ _ _ HS'), (load_run _ _ _ HS). cbn [_listeners].
    rewrite for_in_app.
    unfold updated. rewrite notify_loop_frame.
    destruct (for_in (_listeners S)
                (fun l0 _ => deliver notify (Notification l0 name opts)) tt w)
      as [[[]|e] w1]; simpl.
    + unfold mbind, M_bind, deliver. cbn [delivered].
      by destruct (notify (delivered w1) (Notification l name opts)).
    + by rewrite app_nil_r.
Qed.

Lemma add_listener_registers_witness :
  exists w',
    PolyLine.add_listener 0%nat 7%nat (world_of flat4) = (Ok tt, w')
    /\ heap w' !! 0%nat = Some (PolyLineObj_of ([] ++ [7%nat]) flat4)
    /\ (forall r, r <> 0%nat -> heap w' !! r = heap (world_of flat4) !! r)
    /\ delivered w' = delivered (world_of flat4)
    /\ delivered (snd (PolyLine.notify_all one_raises 0%nat "trial_approx" segment_0_3 w'))
       = delivered (snd (PolyLine.notify_all one_raises 0%nat "trial_approx" segment_0_3
                           (world_of flat4)))
         ++ match fst (PolyLine.notify_all one_raises 0%nat "trial_approx" segment_0_3
                         (world_of flat4)) with
            | Ok _ => [Notification 7%nat "trial_approx" segment_0_3]
            | Raise _ => []
            end.
Proof.
  exact (add_listener_registers one_raises (world_of flat4) 0%nat (PolyLineObj_of [] flat4)
           7%nat "trial_approx" segment_0_3 eq_refl).
Defined.

(** * Equality of PolyLines *)

Lemma polyline_eq_run w p q P Q :
  heap w !! p = Some P -> heap w !! q = Some Q ->
  PolyLine.__eq__ p (OPolyLine q) w
  = (Ok (if list_eq (_points Q) (_points P) then VBool true else VNone), w).
Proof.
  intros HP HQ. unfold PolyLine.__eq__, mbind, M_bind.
  rewrite (load_run _ _ _ HP). unfold PolyLine.points_eq, PolyLine.__eq__list, mbind, M_bind.
  rewrite (load_run _ _ _ HQ). by destruct (list_eq (_points Q) (_points P)).
Qed.

(** X21: between two PolyLines [==] is symmetric: [p == q] and [q == p]
    return the same value, [True] or [None], and leave the store as it
    was; when it is [True] the two have the same number of points.  A
    PolyLine is equal to itself, whatever its points are: a list finds an
    object equal to itself without asking [Point.__eq__]. *)
Theorem polyline_eq_symmetric (w : World) (p q : ref) (P Q : PolyLineObj) :
  heap w !! p = Some P ->
  heap w !! q = Some Q ->
  PolyLine.__eq__ p (OPolyLine q) w = PolyLine.__eq__ q (OPolyLine p) w
  /\ snd (PolyLine.__eq__ p (OPolyLine q) w) = w
  /\ (fst (PolyLine.__eq__ p (OPolyLine q) w) = Ok (VBool true) ->
      length (_points P) = length (_points Q))
  /\ PolyLine.__eq__ p (OPolyLine p) w = (Ok (VBool true), w).
Proof.
  intros HP HQ.
  rewrite (polyline_eq_run _ _ _ _ _ HP HQ), (polyline_eq_run _ _ _ _ _ HQ HP),
    (polyline_eq_run _ _ _ _ _ HP HP).
  rewrite (list_eq_sym (_points Q) (_points P)), list_eq_refl.
  split; [done|]. split; [done|]. split; [|done]. simpl.
  destruct (list_eq (_points P) (_points Q)) eqn:E; [|done].
  intros _. by apply list_eq_length.
Qed.

(** A polyline of two points, the first with a NaN coordinate, and its
    approximation, which holds the same two objects: the two are equal,
    from either side. *)
Lemma polyline_eq_symmetric_witness :
  let w := snd (PolyLine.approximate 1000 0%nat 1%float
                  (world_of (objects 0 [pt nan 0; pt 1 0]))) in
  PolyLine.__eq__ 1%nat (OPolyLine 0%nat) w = (Ok (VBool true), w)
  /\ PolyLine.__eq__ 1%nat (OPolyLine 0%nat) w = PolyLine.__eq__ 0%nat (OPolyLine 1%nat) w.
Proof.
  split; [reflexivity|].
  exact (proj1 (polyline_eq_symmetric
                  (snd (PolyLine.approximate 1000 0%nat 1%float
                          (world_of (objects 0 [pt nan 0; pt 1 0]))))
                  1%nat 0%nat
                  (PolyLineObj_of [] (objects 0 [pt nan 0; pt 1 0]))
                  (PolyLineObj_of [] (objects 0 [pt nan 0; pt 1 0]))
                  eq_refl eq_refl)).
Defined.

(** * The loop of [_dp_simplify] *)

Lemma scan_deviation_of pts from_index to_index xs : forall acc,
  fold_result xs (scan_pts pts from_index to_index) acc
  = first_max (deviation_of pts from_index to_index) xs acc.
Proof.
  unfold first_max. induction xs as [|x xs IH]; intros [maxdev maxindex]; [done|].
  rewrite !fold_result_cons. unfold scan_pts at 1. unfold deviation_of at 1.
  unfold mbind, result_bind.
  destruct (getitem pts from_index) as [p1|e]; [|done].
  destruct (getitem pts to_index) as [p2|e]; [|done].
  destruct (getitem pts x) as [p|e]; [|done].
  destruct (deviation p1 p2 p) as [d|e]; [|done].
  destruct (maxdev <? d)%float; apply IH.
Qed.

(** X17: the loop of [_dp_simplify] finds the first strict maximum.  It
    leaves the store as it was; it returns [(0, 0)] when no interior
    deviation is above 0; otherwise it returns an interior index with its
    deviation, which is above 0: the deviations before that index are below
    it (unless they are NaN), and those after it are not above it. *)
Theorem scan_first_strict_maximum (w w' : World) (self : ref) (S : PolyLineObj)
    (from_index to_index : Z) (maxdev : float) (maxindex : Z) :
  heap w !! self = Some S ->
  0 <= from_index ->
  for_in (range (from_index + 1) to_index)
         (PolyLine.scan_step self from_index to_index) (0%float, 0) w
  = (Ok (maxdev, maxindex), w') ->
  let dev := deviation_of (_points S) from_index to_index in
  w' = w
  /\ (forall i, from_index < i < to_index ->
        exists d, dev i = Ok d /\ (maxdev <? d)%float = false)
  /\ ((maxdev, maxindex) = (0%float, 0)
      \/ (from_index < maxindex < to_index
          /\ (0 <? maxdev)%float = true
          /\ dev maxindex = Ok maxdev
          /\ forall i, from_index < i < maxindex ->
               exists d, dev i = Ok d
                 /\ (is_number d = true -> (d <? maxdev)%float = true))).
Proof.
  intros HS Hfrom. rewrite (scan_run _ _ _ _ _ _ _ HS), scan_deviation_of.
  intros [= Hscan <-] dev. fold dev in Hscan. split; [done|].
  pose proof (first_max_Ok _ _ _ _ _ _ Hscan) as (Hfirst & _ & Hseen).
  split.
  { intros i Hi. apply Hseen, In_range. lia. }
  destruct Hfirst as [Heq|[Hin%In_range Hpos]]; [by left|right].
  split; [lia|]. split; [done|].
  rewrite (range_app _ maxindex), (range_cons maxindex) in Hscan by lia.
  rewrite first_max_app in Hscan.
  destruct (first_max dev (range (from_index + 1) maxindex) (0%float, 0))
    as [[maxdev1 a1]|e] eqn:E1; [|done].
  rewrite first_max_cons in Hscan.
  destruct (dev maxindex) as [d|e] eqn:D; [|done].
  pose proof (first_max_Ok _ _ _ _ _ _ E1) as (Hfirst1 & _ & Hseen1).
  assert (Hupdate : (maxdev1 <? d)%float = true /\ d = maxdev).
  { destruct (maxdev1 <? d)%float eqn:C;
      pose proof (first_max_Ok _ _ _ _ _ _ Hscan) as (Hfirst2 & _ & _);
      (destruct Hfirst2 as [Heq|[Hin2%In_range _]]; [|lia]).
    - by injection Heq as ->.
    - injection Heq as -> ->.
      destruct Hfirst1 as [[= _ Hz]|[Hin1%In_range _]]; lia. }
  destruct Hupdate as [C ->]. split; [done|].
  intros i Hi.
  destruct (Hseen1 i) as (di & Hdi & Hle); [apply In_range; lia|].
  exists di. split; [done|]. intros Hnum.
  destruct (PyFloat.ltb_between _ di _ C Hnum) as [F|F]; [congruence|done].
Qed.

Lemma scan_first_strict_maximum_witness :
  let dev := deviation_of bent5 0 4 in
  world_of bent5 = world_of bent5
  /\ (forall i, 0 < i < 4 -> exists d, dev i = Ok d /\ (1 <? d)%float = false)
  /\ ((1%float, 1) = (0%float, 0)
      \/ (0 < 1 < 4
          /\ (0 <? 1)%float = true
          /\ dev 1 = Ok 1%float
          /\ forall i, 0 < i < 1 ->
               exists d, dev i = Ok d /\ (is_number d = true -> (d <? 1)%float = true))).
Proof.
  refine (scan_first_strict_maximum (world_of bent5) (world_of bent5) 0%nat
            (PolyLineObj_of [] bent5) 0 4 1%float 1 eq_refl _ _).
  - lia.
  - vm_compute. reflexivity.
Defined.

(** * The result of [approximate], for every tolerance *)

Lemma getitem_In {A : Type} (l : list A) (i : Z) (a : A) : getitem l i = Ok a -> In a l.
Proof.
  unfold getitem. cbv zeta. destruct (_ <? 0); [done|].
  destruct (l !! _) as [b|] eqn:E; [|done]. intros [= ->].
  apply list_elem_of_In. by eapply list_elem_of_lookup_2.
Qed.

Lemma In_getitem {A : Type} (l : list A) (a : A) :
  In a l -> exists j, 0 <= j < Z.of_nat (length l) /\ getitem l j = Ok a.
Proof.
  intros [j Hj]%list_elem_of_In%list_elem_of_lookup_1.
  exists (Z.of_nat j). split.
  - apply lookup_lt_Some in Hj. lia.
  - by apply getitem_lookup.
Qed.

(** X9: whenever [approximate] returns, whatever the tolerance, the
    result has at least two points, the first one is the first point of
    the polyline and the last one is its last point. *)
Theorem approximate_keeps_ends (depth : nat) (w : World) (self : ref)
    (S : PolyLineObj) (tolerance : float) (r : ref) (w' : World) :
  heap w !! self = Some S ->
  PolyLine.approximate depth self tolerance w = (Ok r, w') ->
  exists first middle last,
    getitem (_points S) 0 = Ok first
    /\ getitem (_points S) (-1) = Ok last
    /\ _points <$> heap w' !! r = Some (first :: middle ++ [last]).
Proof.
  intros HS Hrun.
  destruct (approximate_Ok _ _ _ _ _ _ _ HS Hrun) as (out & u & p & E & G & HR).
  destruct (simplify_pts_head _ _ _ _ _ _ _ E) as (q & rest & ->).
  pose proof (simplify_pts_read _ _ _ _ _ _ _ E) as [Hq _]%Forall_cons.
  exists q, (map snd rest), p. split; [done|]. split; [done|]. by rewrite HR.
Qed.

Lemma approximate_keeps_ends_witness :
  exists first middle last,
    getitem bent5 0 = Ok first
    /\ getitem bent5 (-1) = Ok last
    /\ _points <$> heap (snd (PolyLine.approximate 1000 0%nat 0%float (world_of bent5)))
                   !! 1%nat
       = Some (first :: middle ++ [last]).
Proof.
  refine (approximate_keeps_ends 1000 (world_of bent5) 0%nat (PolyLineObj_of [] bent5)
            0%float 1%nat _ eq_refl _).
  vm_compute. reflexivity.
Defined.

(** X10: every point of the result of [approximate] is a point of the
    polyline, whatever the tolerance. *)
Theorem approximate_makes_no_point (depth : nat) (w : World) (self : ref)
    (S : PolyLineObj) (tolerance : float) (r : ref) (w' : World) (R : PolyLineObj) :
  heap w !! self = Some S ->
  PolyLine.approximate depth self tolerance w = (Ok r, w') ->
  heap w' !! r = Some R ->
  forall p, In p (_points R) -> In p (_points S).
Proof.
  intros HS Hrun HR p Hp.
  destruct (approximate_Ok _ _ _ _ _ _ _ HS Hrun) as (out & u & q & E & G & HR').
  rewrite HR in HR'. injection HR' as ->. simpl in Hp.
  apply in_app_or in Hp as [Hp|[<-|[]]]; [|by eapply getitem_In].
  apply in_map_iff in Hp as ([i p'] & <- & Hin).
  pose proof (simplify_pts_read _ _ _ _ _ _ _ E) as Hread.
  rewrite Forall_forall in Hread. specialize (Hread (i, p')).
  eapply getitem_In, Hread. by apply list_elem_of_In.
Qed.

Lemma approximate_makes_no_point_witness : In (Object 23 (pt 2 1)) bent5.
Proof.
  refine (approximate_makes_no_point 1000 (world_of bent5) 0%nat (PolyLineObj_of [] bent5)
            0%float 1%nat _ (PolyLineObj_of [] bent5_once) eq_refl _ _ (Object 23 (pt 2 1)) _).
  - vm_compute. reflexivity.
  - reflexivity.
  - simpl. tauto.
Defined.

(** X16: the result of [approximate] depends on the points of the
    polyline, the tolerance and the depth only: not on its listeners,
    nor on the other objects of the store, nor on what was notified. *)
Theorem approximate_reads_points_only (depth : nat) (tolerance : float)
    (w1 w2 : World) (self1 self2 : ref) (S1 S2 : PolyLineObj) :
  heap w1 !! self1 = Some S1 ->
  heap w2 !! self2 = Some S2 ->
  _points S1 = _points S2 ->
  points_of (PolyLine.approximate depth self1 tolerance w1)
  = points_of (PolyLine.approximate depth self2 tolerance w2).
Proof.
  intros H1 H2 Heq.
  rewrite (approximate_run _ _ _ _ _ H1), (approximate_run _ _ _ _ _ H2), Heq.
  unfold points_of.
  destruct (snd (approximate_pts depth (_points S2) tolerance)); [|done].
  simpl. rewrite !lookup_app_r by lia. by rewrite !Nat.sub_diag.
Qed.

Lemma approximate_reads_points_only_witness :
  points_of (PolyLine.approximate 1000 0%nat 1%float (world_of flat4))
  = points_of (PolyLine.approximate 1000 1%nat 1%float
                 (World_of [PolyLineObj_of [] bump3; PolyLineObj_of [7%nat; 9%nat] flat4]
                           [Notification 7%nat "trial_approx" segment_0_3])).
Proof.
  exact (approximate_reads_points_only 1000 1%float (world_of flat4)
           (World_of [PolyLineObj_of [] bump3; PolyLineObj_of [7%nat; 9%nat] flat4]
                     [Notification 7%nat "trial_approx" segment_0_3])
           0%nat 1%nat (PolyLineObj_of [] flat4) (PolyLineObj_of [7%nat; 9%nat] flat4)
           eq_refl eq_refl eq_refl).
Defined.

Lemma sublist_map {A B : Type} (f : A -> B) (l1 l2 : list A) :
  sublist l1 l2 -> sublist (map f l1) (map f l2).
Proof. induction 1; simpl; by constructor. Qed.

(** What a looser tolerance appends is part of what a tighter one
    appends. *)
Lemma simplify_pts_nested pts t1 t2 :
  (t1 <? t2)%float = true ->
  forall d1 d2 from_index to_index out1 u1 out2 u2,
  simplify_pts d1 pts t1 from_index to_index = (out1, Ok u1) ->
  simplify_pts d2 pts t2 from_index to_index = (out2, Ok u2) ->
  sublist out2 out1.
Proof.
  intros Ht. induction d1 as [|d1 IH]; intros d2 from_index to_index out1 u1 out2 u2; [done|].
  destruct d2 as [|d2]; [done|].
  rewrite !simplify_pts_S.
  destruct (to_index - from_index <? 2).
  { intros (p & G1 & ->)%accept_Ok (q & G2 & ->)%accept_Ok.
    rewrite G1 in G2. by injection G2 as <-. }
  destruct (scan pts from_index to_index) as [[maxdev maxindex]|e]; [|done].
  destruct (maxdev <? t1)%float eqn:E1.
  { rewrite (PyFloat.ltb_trans _ _ _ E1 Ht).
    intros (p & G1 & ->)%accept_Ok (q & G2 & ->)%accept_Ok.
    rewrite G1 in G2. by injection G2 as <-. }
  destruct (simplify_pts d1 pts t1 from_index maxindex) as [a1 [v1|e]] eqn:A1; [|done].
  destruct (simplify_pts d1 pts t1 maxindex to_index) as [b1 r1] eqn:B1.
  intros [= <- ->].
  destruct (maxdev <? t2)%float.
  { intros (q & G2 & ->)%accept_Ok.
    destruct (simplify_pts_head _ _ _ _ _ _ _ A1) as (p & rest & ->).
    pose proof (simplify_pts_read _ _ _ _ _ _ _ A1) as [Hp _]%Forall_cons.
    unfold read_at in Hp. simpl in Hp. rewrite Hp in G2. injection G2 as <-.
    simpl. apply sublist_skip, sublist_nil_l. }
  destruct (simplify_pts d2 pts t2 from_index maxindex) as [a2 [v2|e]] eqn:A2; [|done].
  destruct (simplify_pts d2 pts t2 maxindex to_index) as [b2 r2] eqn:B2.
  intros [= <- ->].
  apply sublist_app; by eapply IH.
Qed.

(** X12: for tolerances [t1 < t2], what [approximate] keeps at [t2] is
    kept at [t1] as well: the result for [t2] is the result for [t1]
    with some points left out, in the same order. *)
Theorem approximate_results_nested (d1 d2 : nat) (w : World) (self : ref)
    (S : PolyLineObj) (t1 t2 : float) (r1 r2 : ref) (w1 w2 : World) (R1 R2 : PolyLineObj) :
  heap w !! self = Some S ->
  (t1 <? t2)%float = true ->
  PolyLine.approximate d1 self t1 w = (Ok r1, w1) -> heap w1 !! r1 = Some R1 ->
  PolyLine.approximate d2 self t2 w = (Ok r2, w2) -> heap w2 !! r2 = Some R2 ->
  sublist (_points R2) (_points R1).
Proof.
  intros HS Ht H1 HR1 H2 HR2.
  destruct (approximate_Ok _ _ _ _ _ _ _ HS H1) as (out1 & u1 & p1 & E1 & G1 & L1).
  destruct (approximate_Ok _ _ _ _ _ _ _ HS H2) as (out2 & u2 & p2 & E2 & G2 & L2).
  rewrite HR1 in L1. rewrite HR2 in L2. injection L1 as ->. injection L2 as ->.
  rewrite G1 in G2. injection G2 as <-. simpl.
  apply sublist_app; [|done].
  apply sublist_map. by eapply simplify_pts_nested.
Qed.

Lemma approximate_results_nested_witness :
  sublist (picked bump3 [0; 2]%nat) bump3.
Proof.
  refine (approximate_results_nested 1000 1000 (world_of bump3) 0%nat
            (PolyLineObj_of [] bump3) 0.5%float 8%float 1%nat 1%nat
            (snd (PolyLine.approximate 1000 0%nat 0.5%float (world_of bump3)))
            (snd (PolyLine.approximate 1000 0%nat 8%float (world_of bump3)))
            (PolyLineObj_of [] bump3)
            (PolyLineObj_of [] (picked bump3 [0; 2]%nat))
            eq_refl eq_refl _ _ _ _); vm_compute; reflexivity.
Defined.

Lemma simplify_pts_deeper depth : forall pts tolerance from_index to_index out u depth',
  simplify_pts depth pts tolerance from_index to_index = (out, Ok u) ->
  (depth <= depth')%nat ->
  simplify_pts depth' pts tolerance from_index to_index = (out, Ok u).
Proof.
  induction depth as [|depth IH];
    intros pts tolerance from_index to_index out u depth'; [done|].
  destruct depth' as [|depth']; [lia|]. intros H Hle.
  rewrite simplify_pts_S in H |- *.
  destruct (to_index - from_index <? 2); [done|].
  destruct (scan pts from_index to_index) as [[maxdev maxindex]|e]; [|done].
  destruct (maxdev <? tolerance)%float; [done|].
  destruct (simplify_pts depth pts tolerance from_index maxindex) as [out1 [u1|e]] eqn:E1; [|done].
  destruct (simplify_pts depth pts tolerance maxindex to_index) as [out2 r] eqn:E2.
  injection H as <- ->.
  rewrite (IH _ _ _ _ _ _ depth' E1) by lia.
  by rewrite (IH _ _ _ _ _ _ depth' E2) by lia.
Qed.

(** X13: a call of [approximate] that returns within some depth of
    recursion returns the same PolyLine, in the same store, within any
    larger depth. *)
Theorem approximate_depth_monotone (depth depth' : nat) (w : World) (self : ref)
    (S : PolyLineObj) (tolerance : float) (r : ref) (w' : World) :
  heap w !! self = Some S ->
  (depth <= depth')%nat ->
  PolyLine.approximate depth self tolerance w = (Ok r, w') ->
  PolyLine.approximate depth' self tolerance w = (Ok r, w').
Proof.
  intros HS Hle. rewrite !(approximate_run _ _ _ _ _ HS). unfold approximate_pts.
  destruct (simplify_pts depth (_points S) tolerance 0 (Z.of_nat (length (_points S)) - 1))
    as [out [u|e]] eqn:E; [|done].
  by rewrite (simplify_pts_deeper _ _ _ _ _ _ _ depth' E Hle).
Qed.

Lemma approximate_depth_monotone_witness :
  PolyLine.approximate 1000 0%nat 0.5%float (world_of bump3)
  = (Ok 1%nat, World_of [PolyLineObj_of [] bump3; PolyLineObj_of [] bump3] []).
Proof.
  refine (approximate_depth_monotone 2 1000 (world_of bump3) 0%nat (PolyLineObj_of [] bump3)
            0.5%float 1%nat _ eq_refl _ _).
  - lia.
  - vm_compute. reflexivity.
Defined.

(** * What [approximate] can raise *)

Lemma getitem_inside {A : Type} (l : list A) (i : Z) :
  0 <= i < Z.of_nat (length l) -> exists a, getitem l i = Ok a.
Proof.
  intros H. destruct (l !! Z.to_nat i) as [a|] eqn:E.
  - exists a. rewrite <- (Z2Nat.id i) by lia. by apply getitem_lookup.
  - apply lookup_ge_None in E. lia.
Qed.

(** With every index in the polyline, the scan can only fail in
    [deviation], by a division by zero. *)
Lemma fold_scan_inside pts from_index to_index xs : forall acc e,
  0 <= from_index < Z.of_nat (length pts) ->
  0 <= to_index < Z.of_nat (length pts) ->
  Forall (fun x => 0 <= x < Z.of_nat (length pts)) xs ->
  fold_result xs (scan_pts pts from_index to_index) acc = Raise e ->
  e = ZeroDivisionError.
Proof.
  induction xs as [|x xs IH]; intros [maxdev0 maxindex0] e Hfrom Hto Hxs; [done|].
  apply Forall_cons in Hxs as [Hx Hxs].
  rewrite fold_result_cons.
  destruct (scan_pts pts from_index to_index x (maxdev0, maxindex0)) as [acc|e1] eqn:Hstep.
  { by apply IH. }
  intros [= <-]. revert Hstep. unfold scan_pts, mbind, result_bind.
  destruct (getitem_inside pts from_index Hfrom) as [p1 ->].
  destruct (getitem_inside pts to_index Hto) as [p2 ->].
  destruct (getitem_inside pts x Hx) as [p ->].
  destruct (deviation_outcome p1 p2 p) as [[d [-> Hd]]| ->]; [|congruence].
  by destruct (maxdev0 <? d)%float.
Qed.

Lemma simplify_pts_inside depth : forall pts tolerance from_index to_index e,
  0 <= from_index < Z.of_nat (length pts) ->
  to_index < Z.of_nat (length pts) ->
  snd (simplify_pts depth pts tolerance from_index to_index) = Raise e ->
  e = ZeroDivisionError \/ e = RecursionError.
Proof.
  induction depth as [|depth IH]; intros pts tolerance from_index to_index e Hfrom Hto.
  { simpl. intros [= <-]. by right. }
  assert (Haccept : snd (accept pts from_index) = Raise e ->
                    e = ZeroDivisionError \/ e = RecursionError).
  { unfold accept. by destruct (getitem_inside pts from_index Hfrom) as [p ->]. }
  rewrite simplify_pts_S.
  destruct (to_index - from_index <? 2) eqn:Hbase; [done|].
  apply Z.ltb_ge in Hbase.
  destruct (scan pts from_index to_index) as [[maxdev maxindex]|e1] eqn:Hscan.
  2:{ simpl. intros [= <-]. left. unfold scan in Hscan.
      eapply fold_scan_inside; [exact Hfrom| |apply Forall_forall|exact Hscan].
      - lia.
      - intros x Hx%list_elem_of_In%In_range. lia. }
  destruct (maxdev <? tolerance)%float; [done|].
  assert (Hm : 0 <= maxindex < Z.of_nat (length pts)).
  { destruct (scan_Ok _ _ _ _ _ Hscan) as [[[= _ ->]|[? _]] _]; lia. }
  pose proof (IH pts tolerance from_index maxindex) as IH1.
  pose proof (IH pts tolerance maxindex to_index) as IH2.
  destruct (simplify_pts depth pts tolerance from_index maxindex) as [out1 [u1|e1]].
  - destruct (simplify_pts depth pts tolerance maxindex to_index) as [out2 r].
    simpl in *. intros ->. apply IH2; [done|lia|done].
  - simpl in *. intros [= <-]. apply IH1; [done|lia|done].
Qed.

Lemma approximate_pts_Raise depth pts tolerance e :
  pts <> [] ->
  snd (approximate_pts depth pts tolerance) = Raise e ->
  e = ZeroDivisionError \/ e = RecursionError.
Proof.
  intros Hne. unfold approximate_pts.
  assert (Hlen : 0 < Z.of_nat (length pts)).
  { destruct pts; [done|simpl; lia]. }
  pose proof (simplify_pts_inside depth pts tolerance 0 (Z.of_nat (length pts) - 1)) as Hin.
  destruct (simplify_pts depth pts tolerance 0 (Z.of_nat (length pts) - 1))
    as [out [u|e1]]; simpl in *.
  - destruct (getitem_in_range pts (-1)) as [-> [p ->]]; [lia|done].
  - intros [= <-]. apply Hin; [lia|lia|done].
Qed.

(** X14: on a polyline that is not empty, [approximate] raises nothing
    but [ZeroDivisionError] (from [normal_intercept]) and
    [RecursionError]: every index it reads is in the polyline, and the
    square root it takes is of a value that is not negative. *)
Theorem approximate_raises_only (depth : nat) (w : World) (self : ref)
    (S : PolyLineObj) (tolerance : float) (e : exn) :
  heap w !! self = Some S ->
  _points S <> [] ->
  fst (PolyLine.approximate depth self tolerance w) = Raise e ->
  e = ZeroDivisionError \/ e = RecursionError.
Proof.
  intros HS Hne. rewrite (approximate_run _ _ _ _ _ HS). cbn [fst].
  pose proof (approximate_pts_Raise depth (_points S) tolerance e Hne) as H.
  destruct (snd (approximate_pts depth (_points S) tolerance)); [done|].
  intros [= <-]. by apply H.
Qed.

Lemma approximate_raises_only_witness :
  RecursionError = ZeroDivisionError \/ RecursionError = RecursionError.
Proof.
  refine (approximate_raises_only 1000 (world_of collinear3) 0%nat
            (PolyLineObj_of [] collinear3) 0%float RecursionError eq_refl _ _).
  - discriminate.
  - vm_compute. reflexivity.
Defined.

(** X15: with a positive tolerance, on a polyline of [n >= 1] points and
    with [n] nested calls allowed, [approximate] returns a PolyLine or
    raises [ZeroDivisionError]; nothing else can happen. *)
Theorem approximate_positive_outcome (depth : nat) (w : World) (self : ref)
    (S : PolyLineObj) (tolerance : float) :
  heap w !! self = Some S ->
  (0 <? tolerance)%float = true ->
  (1 <= length (_points S) <= depth)%nat ->
  (exists r, fst (PolyLine.approximate depth self tolerance w) = Ok r)
  \/ fst (PolyLine.approximate depth self tolerance w) = Raise ZeroDivisionError.
Proof.
  intros HS Hpos Hlen.
  pose proof (approximate_positive_terminates depth w self S tolerance HS Hpos) as Hterm.
  assert (Hne : _points S <> []).
  { intros Hemp. rewrite Hemp in Hlen. simpl in Hlen. lia. }
  pose proof (approximate_pts_Raise depth (_points S) tolerance) as Hraise.
  revert Hterm. rewrite (approximate_run _ _ _ _ _ HS). cbn [fst]. intros Hterm.
  destruct (snd (approximate_pts depth (_points S) tolerance)) as [u|e];
    [left; by eexists|].
  right. destruct (Hraise e Hne eq_refl) as [->| ->]; [done|].
  exfalso. apply Hterm; [lia|lia|done].
Qed.

Lemma approximate_positive_outcome_witness :
  (exists r, fst (PolyLine.approximate 4 0%nat 1%float (world_of flat4)) = Ok r)
  \/ fst (PolyLine.approximate 4 0%nat 1%float (world_of flat4)) = Raise ZeroDivisionError.
Proof.
  apply (approximate_positive_outcome 4 (world_of flat4) 0%nat (PolyLineObj_of [] flat4)
           1%float eq_refl eq_refl).
  simpl. lia.
Defined.

(** * Tolerances that are not positive, and positive ones *)

(** With a tolerance that is not positive no range is flat enough. *)
Lemma scan_never_flat pts tolerance from_index to_index maxdev maxindex :
  (0 <? tolerance)%float = false ->
  scan pts from_index to_index = Ok (maxdev, maxindex) ->
  (maxdev <? tolerance)%float = false.
Proof.
  intros Hnon [[[= -> ->]|[_ Hpos]] _]%scan_Ok; [done|].
  destruct (maxdev <? tolerance)%float eqn:E; [|done].
  by rewrite (PyFloat.ltb_trans _ _ _ Hpos E) in Hnon.
Qed.

Lemma simplify_pts_keeps_all depth : forall pts tolerance from_index to_index out u,
  (0 <? tolerance)%float = false ->
  0 <= from_index -> from_index <= to_index ->
  simplify_pts depth pts tolerance from_index to_index = (out, Ok u) ->
  forall i, from_index <= i -> i < to_index \/ i = from_index -> In i (map fst out).
Proof.
  induction depth as [|depth IH];
    intros pts tolerance from_index to_index out u Hnon Hfrom Hle; [done|].
  rewrite simplify_pts_S.
  destruct (to_index - from_index <? 2) eqn:Hbase.
  { intros (p & _ & ->)%accept_Ok i Hi Hi'. apply Z.ltb_lt in Hbase. left. simpl. lia. }
  apply Z.ltb_ge in Hbase.
  destruct (scan pts from_index to_index) as [[maxdev maxindex]|e] eqn:Hscan; [|done].
  rewrite (scan_never_flat _ _ _ _ _ _ Hnon Hscan).
  destruct (simplify_pts depth pts tolerance from_index maxindex) as [out1 [u1|e]] eqn:E1; [|done].
  destruct (simplify_pts depth pts tolerance maxindex to_index) as [out2 r] eqn:E2.
  intros [= <- ->] i Hi Hi'. rewrite map_app. apply in_or_app.
  destruct (scan_Ok _ _ _ _ _ Hscan) as [[[= _ ->]|[Hm _]] _].
  - assert (Hto : 0 <= to_index) by lia.
    right. apply (IH _ _ _ _ _ _ Hnon (Z.le_refl 0) Hto E2 i); lia.
  - assert (H1 : from_index <= maxindex) by lia.
    assert (H2 : 0 <= maxindex) by lia.
    assert (H3 : maxindex <= to_index) by lia.
    destruct (Z_lt_le_dec i maxindex) as [Hl|Hr].
    + left. apply (IH _ _ _ _ _ _ Hnon Hfrom H1 E1 i); lia.
    + right. apply (IH _ _ _ _ _ _ Hnon H2 H3 E2 i); lia.
Qed.

(** X11: with a tolerance that is not positive (zero, negative or NaN),
    [approximate] drops nothing: when it returns, every point of the
    polyline is in the result. *)
Theorem approximate_nonpositive_keeps_all (depth : nat) (w : World) (self : ref)
    (S : PolyLineObj) (tolerance : float) (r : ref) (w' : World) (R : PolyLineObj) :
  heap w !! self = Some S ->
  (0 <? tolerance)%float = false ->
  PolyLine.approximate depth self tolerance w = (Ok r, w') ->
  heap w' !! r = Some R ->
  forall p, In p (_points S) -> In p (_points R).
Proof.
  intros HS Hnon Hrun HR p Hp.
  destruct (approximate_Ok _ _ _ _ _ _ _ HS Hrun) as (out & u & q & E & G & HR').
  rewrite HR in HR'. injection HR' as ->. simpl.
  apply in_or_app.
  destruct (In_getitem _ _ Hp) as (j & Hj & Gj).
  destruct (Z.eq_dec j (Z.of_nat (length (_points S)) - 1)) as [->|Hne].
  - right. left. apply getitem_last in G. congruence.
  - left.
    assert (Hlen : 0 <= Z.of_nat (length (_points S)) - 1) by lia.
    assert (Hin : In j (map fst out)).
    { apply (simplify_pts_keeps_all _ _ _ _ _ _ _ Hnon (Z.le_refl 0) Hlen E j); lia. }
    apply in_map_iff in Hin as ([j' p'] & Hfst & Hin). simpl in Hfst. subst j'.
    pose proof (simplify_pts_read _ _ _ _ _ _ _ E) as Hread.
    rewrite Forall_forall in Hread. specialize (Hread (j, p')).
    unfold read_at in Hread. simpl in Hread.
    rewrite Hread in Gj by (by apply list_elem_of_In). injection Gj as <-.
    apply in_map_iff. by exists (j, p').
Qed.

Lemma approximate_nonpositive_keeps_all_witness : In (Object 23 (pt 2 1)) bent5_once.
Proof.
  refine (approximate_nonpositive_keeps_all 1000 (world_of bent5) 0%nat
            (PolyLineObj_of [] bent5) 0%float 1%nat _ (PolyLineObj_of [] bent5_once)
            eq_refl eq_refl _ _ (Object 23 (pt 2 1)) _).
  - vm_compute. reflexivity.
  - reflexivity.
  - simpl. tauto.
Defined.

Lemma sorted_in_range_length (idx : list Z) : forall a b,
  StronglySorted Z.lt idx -> Forall (fun i => a <= i < b) idx ->
  Z.of_nat (length idx) <= Z.max 0 (b - a).
Proof.
  induction idx as [|i idx IH]; intros a b Hs Hb; [simpl; lia|].
  apply StronglySorted_cons in Hs as [Hlt Hs]. apply Forall_cons in Hb as [Hi Hb].
  assert (Hb' : Forall (fun j => i + 1 <= j < b) idx).
  { rewrite Forall_forall in Hlt, Hb |- *. intros j Hj.
    specialize (Hlt j Hj). specialize (Hb j Hj). lia. }
  specialize (IH (i + 1) b Hs Hb'). simpl length. lia.
Qed.

(** X18: with a positive tolerance and at least two points, the result
    of [approximate] has at least two points and no more points than the
    polyline. *)
Theorem approximate_positive_no_longer (depth : nat) (w : World) (self : ref)
    (S : PolyLineObj) (tolerance : float) (r : ref) (w' : World) (R : PolyLineObj) :
  heap w !! self = Some S ->
  (0 <? tolerance)%float = true ->
  (2 <= length (_points S))%nat ->
  PolyLine.approximate depth self tolerance w = (Ok r, w') ->
  heap w' !! r = Some R ->
  (2 <= length (_points R) <= length (_points S))%nat.
Proof.
  intros HS Hpos Hlen Hrun HR.
  destruct (approximate_Ok _ _ _ _ _ _ _ HS Hrun) as (out & u & p & E & G & HR').
  rewrite HR in HR'. injection HR' as ->. simpl. rewrite length_app, length_map. simpl.
  assert (Hrange : 0 < Z.of_nat (length (_points S)) - 1) by lia.
  destruct (simplify_pts_increasing _ _ _ _ _ _ _ Hpos Hrange E) as [Hs Hb].
  pose proof (sorted_in_range_length _ _ _ Hs Hb) as Hbound.
  rewrite length_map in Hbound.
  destruct (simplify_pts_head _ _ _ _ _ _ _ E) as (q & rest & ->).
  simpl in *. lia.
Qed.

Lemma approximate_positive_no_longer_witness :
  (2 <= length (picked flat4 [0; 3]%nat) <= length flat4)%nat.
Proof.
  refine (approximate_positive_no_longer 1000 (world_of flat4) 0%nat
            (PolyLineObj_of [] flat4) 1%float 1%nat _ (PolyLineObj_of [] (picked flat4 [0; 3]%nat))
            eq_refl eq_refl _ _ _).
  - simpl. lia.
  - vm_compute. reflexivity.
  - reflexivity.
Defined.

Lemma approximate_positive_subsequence_witness :
  exists (R : PolyLineObj) (idx : list Z),
    heap (snd (PolyLine.approximate 1000 0%nat 0.5%float (world_of bump3))) !! 1%nat = Some R
    /\ Forall2 (fun i p => getitem bump3 i = Ok p) idx (_points R)
    /\ StronglySorted Z.lt idx
    /\ head idx = Some 0
    /\ last idx = Some (3 - 1).
Proof.
  refine (approximate_positive_subsequence 1000 (world_of bump3) 0%nat
            (PolyLineObj_of [] bump3) 0.5%float 1%nat _ eq_refl eq_refl _ _).
  - simpl. lia.
  - vm_compute. reflexivity.
Defined.

Lemma approximate_positive_idempotent_witness :
  exists kept_pts,
    _points <$> heap (snd (approximate_twice 1000 0%nat 1%float (world_of flat4))) !! 1%nat
    = Some kept_pts
    /\ _points <$> heap (snd (approximate_twice 1000 0%nat 1%float (world_of flat4))) !! 2%nat
       = Some kept_pts.
Proof.
  refine (approximate_positive_idempotent 1000 (world_of flat4) 0%nat
            (PolyLineObj_of [] flat4) 1%float 1%nat 2%nat _ eq_refl eq_refl _).
  vm_compute. reflexivity.
Defined.
